(** * PicoMol: the molecular structure model and its exporters

    A shallow embedding of [picomol/mol/atom.py], [picomol/mol/bond.py],
    [picomol/mol/residue.py], [picomol/mol/structure.py],
    [picomol/molviewspec/save.py] and of the mesh assembly of
    [picomol/examples/pdb_picogl_simple.py].  The loader
    ([picomol/loader/pdb.py]) is modelled from the design document.

    Python objects that are shared by reference (the lists held by a
    structure and by its residues, the arrays and lists a method returns)
    live in an explicit heap; methods are computations in a small state and
    error monad over that heap.  Python [int] is [Z], Python [float] is an
    IEEE-754 binary64 value, numpy [float32] is a binary32 value, a Python
    [str] is a string of characters U+0000 to U+00FF.  [json.dump] and the
    text layer of [open] are modelled after the standard library. *)

From Stdlib Require Import ZArith Lia Floats.SpecFloat.
From Stdlib Require Import Ascii String DecimalString DecimalZ Strings.Byte.
From stdpp Require Import gmap strings list sorting.

Local Open Scope Z_scope.

(** ** Floating point *)

(** A Python [float]: a binary64 value ([prec = 53], [emax = 1024]). *)
Definition float : Type := spec_float.

(** A numpy [float32]: a binary32 value ([prec = 24], [emax = 128]). *)
Definition float32 : Type := spec_float.

Definition is_float64 (f : float) : bool := valid_binary 53 1024 f.

(** The literals [1.0] and [0.0]. *)
Definition float_1_0 : float := S754_finite false 4503599627370496 (-52).
Definition float_0_0 : float := S754_zero false.

(** The conversion numpy applies for [dtype=np.float32]: round to nearest,
    ties to even; zeros, infinities and NaN keep their class, and a finite
    value beyond the binary32 range becomes an infinity. *)
Definition to_float32 (f : float) : float32 :=
  match f with
  | S754_finite s m e => binary_round 24 128 s m e
  | _ => f
  end.

(** ** The heap of shared Python objects *)

Definition loc : Type := positive.

(** [picomol/mol/atom.py] *)
Module Atom.
Record t : Type := mk {
  serial : Z;
  name : string;
  res_name : string;
  chain_id : string;
  res_seq : Z;
  x : float;
  y : float;
  z : float;
  element : string;
  charge : string;
  occupancy : float;
  b_factor : float
}.

(** The constructor the [@dataclass] decorator generates: the last three
    parameters are optional and fall back to the named defaults. *)
Definition init (serial : Z) (name res_name chain_id : string) (res_seq : Z)
    (x y z : float) (element : string)
    (charge : option string) (occupancy b_factor : option float) : t :=
  mk serial name res_name chain_id res_seq x y z element
     (default ""%string charge)
     (default float_1_0 occupancy)
     (default float_0_0 b_factor).
End Atom.

(** [picomol/mol/bond.py] *)
Module Bond.
Record t : Type := mk {
  atom1_idx : Z;
  atom2_idx : Z;
  bond_type : string
}.

Definition init (atom1_idx atom2_idx : Z) (bond_type : option string) : t :=
  mk atom1_idx atom2_idx (default "single"%string bond_type).
End Bond.

(** [picomol/mol/residue.py].  The [atoms] field holds a reference to a
    Python list object. *)
Module Residue.
Record t : Type := mk {
  name : string;
  chain_id : string;
  seq_num : Z;
  atoms : loc;
  start_idx : Z
}.
End Residue.

(** The fields of a [PDBStructure] object ([picomol/mol/structure.py]);
    the four list fields hold references to Python list objects. *)
Module PDBStructure.
Record t : Type := mk {
  title : string;
  atoms : loc;
  bonds : loc;
  residues : loc;
  chains : loc
}.
End PDBStructure.

(** A numpy array: its shape and its elements in row-major order. *)
Record ndarray : Type := mk_ndarray {
  shape : list nat;
  data : list float32
}.

(** [np.array(rows, dtype=np.float32)] for a list of equally long rows. *)
Definition np_array_float32 (rows : list (list float)) : ndarray :=
  match rows with
  | [] => mk_ndarray [0%nat] []
  | r :: _ => mk_ndarray [length rows; length r] (to_float32 <$> concat rows)
  end.

(** The [i]-th row of a two-dimensional array. *)
Definition row (a : ndarray) (i : nat) : list float32 :=
  match shape a with
  | [_; w] => take w (drop (i * w) (data a))
  | _ => []
  end.

Inductive pyobj : Type :=
  | PyStructure (s : PDBStructure.t)
  | PyAtomList (l : list Atom.t)
  | PyBondList (l : list Bond.t)
  | PyResidueList (l : list Residue.t)
  | PyStrList (l : list string)
  | PyArray (a : ndarray).

Abbreviation heap := (gmap loc pyobj).

(** Computations that read and extend the heap; [None] is a raised
    exception. *)
Definition Py (A : Type) : Type := heap → option (A * heap).

Definition ret {A} (a : A) : Py A := λ h, Some (a, h).

Definition bind {A B} (c : Py A) (k : A → Py B) : Py B :=
  λ h, match c h with
       | Some (a, h') => k a h'
       | None => None
       end.

Notation "'let*' x ':=' c 'in' k" := (bind c (λ x, k))
  (at level 10, x name, c at level 100, k at level 200).

(** Creating a new object: it gets an identity no live object has. *)
Definition alloc (o : pyobj) : Py loc :=
  λ h, let l := fresh (dom h) in Some (l, <[l := o]> h).

(** Replacing the contents of a live object in place, as [list.append],
    [list.clear] or an item assignment do. *)
Definition store (l : loc) (o : pyobj) : Py unit :=
  λ h, match h !! l with
       | Some _ => Some (tt, <[l := o]> h)
       | None => None
       end.

(** Pure reads of the heap, one per expected class of object. *)
Definition heap_structure (h : heap) (l : loc) : option PDBStructure.t :=
  match h !! l with Some (PyStructure v) => Some v | _ => None end.
Definition heap_atoms (h : heap) (l : loc) : option (list Atom.t) :=
  match h !! l with Some (PyAtomList v) => Some v | _ => None end.
Definition heap_bonds (h : heap) (l : loc) : option (list Bond.t) :=
  match h !! l with Some (PyBondList v) => Some v | _ => None end.
Definition heap_residues (h : heap) (l : loc) : option (list Residue.t) :=
  match h !! l with Some (PyResidueList v) => Some v | _ => None end.
Definition heap_strs (h : heap) (l : loc) : option (list string) :=
  match h !! l with Some (PyStrList v) => Some v | _ => None end.
Definition heap_array (h : heap) (l : loc) : option ndarray :=
  match h !! l with Some (PyArray v) => Some v | _ => None end.

(** Reading through a reference; a dangling reference or an object of
    another class raises. *)
Definition load {A} (read : heap → loc → option A) (l : loc) : Py A :=
  λ h, match read h l with
       | Some v => Some (v, h)
       | None => None
       end.

(** [xs[i]] for an index already known to satisfy [0 <= i]. *)
Definition getitem {A} (xs : list A) (i : Z) : Py A :=
  λ h, match xs !! Z.to_nat i with
       | Some v => Some (v, h)
       | None => None
       end.

(** *** The methods of [PDBStructure] *)

(** The list [[atom.x, atom.y, atom.z]]. *)
Definition position (atom : Atom.t) : list float :=
  [Atom.x atom; Atom.y atom; Atom.z atom].

Definition get_atom_positions (self : loc) : Py loc :=
  let* this := load heap_structure self in
  let* atoms := load heap_atoms (PDBStructure.atoms this) in
  alloc (PyArray (np_array_float32 (position <$> atoms))).

Definition get_atom_elements (self : loc) : Py loc :=
  let* this := load heap_structure self in
  let* atoms := load heap_atoms (PDBStructure.atoms this) in
  alloc (PyStrList (Atom.element <$> atoms)).

Definition get_residue_atoms (self : loc) (residue_idx : Z) : Py loc :=
  let* this := load heap_structure self in
  let* residues := load heap_residues (PDBStructure.residues this) in
  if (0 <=? residue_idx) && (residue_idx <? Z.of_nat (length residues))
  then let* residue := getitem residues residue_idx in
       ret (Residue.atoms residue)
  else alloc (PyAtomList []).

(** The operations a [PDBStructure] exposes, and a client that performs a
    sequence of them. *)
Inductive call : Type :=
  | CallGetAtomPositions
  | CallGetAtomElements
  | CallGetResidueAtoms (residue_idx : Z).

Definition perform (self : loc) (c : call) : Py loc :=
  match c with
  | CallGetAtomPositions => get_atom_positions self
  | CallGetAtomElements => get_atom_elements self
  | CallGetResidueAtoms i => get_residue_atoms self i
  end.

Fixpoint perform_all (self : loc) (cs : list call) : Py (list loc) :=
  match cs with
  | [] => ret []
  | c :: cs' =>
      let* r := perform self c in
      let* rs := perform_all self cs' in
      ret (r :: rs)
  end.

(** *** What a structure holds

    The contents reachable from a structure object: its five fields with
    every reference followed. *)
Record residue_contents : Type := mk_residue_contents {
  rc_name : string;
  rc_chain_id : string;
  rc_seq_num : Z;
  rc_atoms : list Atom.t;
  rc_start_idx : Z
}.

Record contents : Type := mk_contents {
  c_title : string;
  c_atoms : list Atom.t;
  c_bonds : list Bond.t;
  c_residues : list residue_contents;
  c_chains : list string
}.

Definition residue_contents_of (h : heap) (r : Residue.t)
    : option residue_contents :=
  atoms ← heap_atoms h (Residue.atoms r);
  Some (mk_residue_contents (Residue.name r) (Residue.chain_id r)
          (Residue.seq_num r) atoms (Residue.start_idx r)).

Definition contents_of (h : heap) (self : loc) : option contents :=
  this ← heap_structure h self;
  atoms ← heap_atoms h (PDBStructure.atoms this);
  bonds ← heap_bonds h (PDBStructure.bonds this);
  residues ← heap_residues h (PDBStructure.residues this);
  rcs ← mapM (residue_contents_of h) residues;
  chains ← heap_strs h (PDBStructure.chains this);
  Some (mk_contents (PDBStructure.title this) atoms bonds rcs chains).

(** A small structure used to exercise the statements below: two atoms
    whose x coordinates are [1.0] and the next binary64 value above it,
    one bond, one residue holding both atoms. *)
Definition float_1_0_next : float := S754_finite false 4503599627370497 (-52).

Definition example_atom0 : Atom.t :=
  Atom.init 1 "CA" "ALA" "A" 1 float_1_0 float_0_0 float_0_0 "C" None None None.
Definition example_atom1 : Atom.t :=
  Atom.init 2 "CB" "ALA" "A" 1 float_1_0_next float_0_0 float_0_0 "C" None None None.

Definition example_heap : heap :=
  <[1%positive := PyStructure (PDBStructure.mk "demo" 2%positive 3%positive 4%positive 5%positive)]>
  (<[2%positive := PyAtomList [example_atom0; example_atom1]]>
  (<[3%positive := PyBondList [Bond.init 0 1 None]]>
  (<[4%positive := PyResidueList [Residue.mk "ALA" "A" 1 6%positive 0]]>
  (<[5%positive := PyStrList ["A"%string]]>
  (<[6%positive := PyAtomList [example_atom0; example_atom1]]> ∅))))).

Definition example_self : loc := 1%positive.

Definition example_contents : contents :=
  mk_contents "demo" [example_atom0; example_atom1] [Bond.init 0 1 None]
    [mk_residue_contents "ALA" "A" 1 [example_atom0; example_atom1] 0]
    ["A"%string].

(** ** The loader

    [picomol/loader/pdb.py] ([PDBLoader]: parser, residue grouper, bond
    inference and the two exporters) is not among the files embedded
    above; the definitions of this part follow the design document. *)

(** Modelled from the spec: the input of the Structure Parser, which is
    missing ([PDBLoader]): one item per line of the file, after fixed-column
    field extraction (§4.1).  A line is an atom-coordinate record (the
    heteroatom variant included), a connectivity record (a source serial
    followed by its partner serials), a descriptive header record, a line of
    another kind, or a record with a field that cannot be read. *)
Inductive line : Type :=
  | AtomLine (atom : Atom.t)
  | ConnectLine (source : Z) (partners : list Z)
  | HeaderLine (text : string)
  | OtherLine
  | MalformedLine.

(** Modelled from the spec: the result of the missing loader: a value, or
    [FormatError] with the offending line (§7). *)
Inductive outcome (A : Type) : Type :=
  | Loaded (a : A)
  | FormatError (line_no : nat).
Arguments Loaded {A} a.
Arguments FormatError {A} line_no.

(** Modelled from the spec: the state of the missing single-pass parser
    (§4.1): the title if one was seen, the atoms so far, the serial→index
    lookup built while scanning atom records, and the bonds so far. *)
Record parser_state : Type := mk_parser_state {
  ps_title : option string;
  ps_atoms : list Atom.t;
  ps_index : gmap Z nat;
  ps_bonds : list Bond.t
}.

(** Modelled from the spec: the missing parser before its first line. *)
Definition parser_start : parser_state := mk_parser_state None [] ∅ [].

(** Modelled from the spec: the resolution of one partner of a connectivity
    record, part of the missing parser.  Both serials go through the
    serial→index lookup built so far; an unknown serial fails (§4.1).  A
    bond joins two different atoms (§3) and a load either yields a fully
    valid structure or fails (§7), so a record that names its own source as
    partner fails as well. *)
Definition resolve_bond (index : gmap Z nat) (source partner : Z) : option Bond.t :=
  match index !! source, index !! partner with
  | Some i, Some j =>
      if decide (i = j) then None
      else Some (Bond.init (Z.of_nat i) (Z.of_nat j) None)
  | _, _ => None
  end.

(** Modelled from the spec: one step of the missing single-pass parser
    (§4.1).  An atom record is appended to the atom sequence and entered in
    the serial→index lookup; a connectivity record adds one bond per
    partner; the title is the first header record. *)
Definition parse_line (line_no : nat) (st : parser_state) (ln : line)
    : outcome parser_state :=
  match ln with
  | AtomLine atom =>
      Loaded (mk_parser_state (ps_title st) (ps_atoms st ++ [atom])
                (<[Atom.serial atom := length (ps_atoms st)]> (ps_index st))
                (ps_bonds st))
  | ConnectLine source partners =>
      match mapM (resolve_bond (ps_index st) source) partners with
      | Some bonds =>
          Loaded (mk_parser_state (ps_title st) (ps_atoms st) (ps_index st)
                    (ps_bonds st ++ bonds))
      | None => FormatError line_no
      end
  | HeaderLine text =>
      Loaded (mk_parser_state
                (match ps_title st with Some t => Some t | None => Some text end)
                (ps_atoms st) (ps_index st) (ps_bonds st))
  | OtherLine => Loaded st
  | MalformedLine => FormatError line_no
  end.

(** Modelled from the spec: the pass of the missing parser over the lines,
    in file order; the first failure ends it (§4.1, §7). *)
Fixpoint parse_lines (line_no : nat) (st : parser_state) (lines : list line)
    : outcome parser_state :=
  match lines with
  | [] => Loaded st
  | ln :: rest =>
      match parse_line line_no st ln with
      | Loaded st' => parse_lines (S line_no) st' rest
      | FormatError n => FormatError n
      end
  end.

(** Modelled from the spec: the missing Structure Parser (§4.1): title
    (empty when there is no header), atoms and explicit bonds, in file
    order. *)
Definition parse (lines : list line)
    : outcome (string * list Atom.t * list Bond.t) :=
  match parse_lines 1 parser_start lines with
  | Loaded st => Loaded (default ""%string (ps_title st), ps_atoms st, ps_bonds st)
  | FormatError n => FormatError n
  end.

(** *** Residue Grouper *)

(** Modelled from the spec: the state of the missing Residue Grouper
    (§4.2): the residues already closed and the currently open group. *)
Record grouper_state : Type := mk_grouper_state {
  g_closed : list residue_contents;
  g_open : option residue_contents
}.

(** Modelled from the spec: the key comparison of the missing grouper
    (§4.2): same chain id and same residue sequence number. *)
Definition same_residue (r : residue_contents) (atom : Atom.t) : bool :=
  bool_decide (rc_chain_id r = Atom.chain_id atom) && (rc_seq_num r =? Atom.res_seq atom).

(** Modelled from the spec: the group the missing grouper begins at an
    atom, with [start_idx] the atom's index (§4.2). *)
Definition open_residue (idx : nat) (atom : Atom.t) : residue_contents :=
  mk_residue_contents (Atom.res_name atom) (Atom.chain_id atom)
    (Atom.res_seq atom) [atom] (Z.of_nat idx).

(** Modelled from the spec: the missing grouper adding an atom to the open
    group (§4.2). *)
Definition add_atom (r : residue_contents) (atom : Atom.t) : residue_contents :=
  mk_residue_contents (rc_name r) (rc_chain_id r) (rc_seq_num r)
    (rc_atoms r ++ [atom]) (rc_start_idx r).

(** Modelled from the spec: one step of the missing Residue Grouper (§4.2).
    The atom joins the open group when its (chain id, residue sequence
    number) is that of the group; otherwise the group is closed and a new
    one begins at this atom's index. *)
Definition group_step (st : grouper_state) (idx : nat) (atom : Atom.t)
    : grouper_state :=
  match g_open st with
  | Some r =>
      if same_residue r atom
      then mk_grouper_state (g_closed st) (Some (add_atom r atom))
      else mk_grouper_state (g_closed st ++ [r]) (Some (open_residue idx atom))
  | None => mk_grouper_state (g_closed st) (Some (open_residue idx atom))
  end.

(** Modelled from the spec: the pass of the missing grouper over the atom
    sequence, [idx] being the index of the next atom (§4.2). *)
Fixpoint group_loop (st : grouper_state) (idx : nat) (atoms : list Atom.t)
    : grouper_state :=
  match atoms with
  | [] => st
  | atom :: rest => group_loop (group_step st idx atom) (S idx) rest
  end.

(** Modelled from the spec: the residues of the missing grouper in order
    of first appearance, the open group last (§4.2). *)
Definition grouper_result (st : grouper_state) : list residue_contents :=
  g_closed st ++ option_list (g_open st).

(** Modelled from the spec: the missing Residue Grouper (§4.2), a single
    pass over the atom sequence. *)
Definition group_residues (atoms : list Atom.t) : list residue_contents :=
  grouper_result (group_loop (mk_grouper_state [] None) 0 atoms).

(** Modelled from the spec: the chain list of the missing grouper (§4.2):
    the chain identifiers of the atoms, each once, in order of first
    appearance. *)
Definition chain_list (atoms : list Atom.t) : list string :=
  foldl (λ seen atom,
           if bool_decide (Atom.chain_id atom ∈ seen) then seen
           else seen ++ [Atom.chain_id atom])
        [] atoms.

(** *** Bond Inference Engine *)

(** Binary64 arithmetic. *)
Definition fadd : float → float → float := SFadd 53 1024.
Definition fsub : float → float → float := SFsub 53 1024.
Definition fmul : float → float → float := SFmul 53 1024.
Definition fsqrt : float → float := SFsqrt 53 1024.

Section inference.
(** The covalent-radius table, the multiplicative tolerance and the
    minimum distance; the design document gives example values only. *)
Variable radius : string → float.
Variable tolerance : float.
Variable min_distance : float.

(** Modelled from the spec: the Euclidean distance of the missing Bond
    Inference Engine (§4.3). *)
Definition distance (a b : Atom.t) : float :=
  let dx := fsub (Atom.x a) (Atom.x b) in
  let dy := fsub (Atom.y a) (Atom.y b) in
  let dz := fsub (Atom.z a) (Atom.z b) in
  fsqrt (fadd (fadd (fmul dx dx) (fmul dy dy)) (fmul dz dz)).

(** Modelled from the spec: the bonding test of the missing Bond
    Inference Engine (§4.3):
    [distance <= (radius A + radius B) * tolerance] and
    [distance > min_distance]. *)
Definition within_bonding_distance (a b : Atom.t) : bool :=
  let d := distance a b in
  SFleb d (fmul (fadd (radius (Atom.element a)) (radius (Atom.element b)))
             tolerance)
  && SFltb min_distance d.

(** Modelled from the spec: the test of the missing Bond Inference Engine
    for a pair that is already bonded, in either direction (§4.3). *)
Definition connected (bonds : list Bond.t) (i j : nat) : bool :=
  existsb (λ b,
    ((Bond.atom1_idx b =? Z.of_nat i) && (Bond.atom2_idx b =? Z.of_nat j))
    || ((Bond.atom1_idx b =? Z.of_nat j) && (Bond.atom2_idx b =? Z.of_nat i)))
    bonds.

(** Modelled from the spec: the pairs the missing Bond Inference Engine
    visits: the unordered pairs of atom indices, by ascending index
    (§4.3). *)
Definition index_pairs (n : nat) : list (nat * nat) :=
  i ← seq 0 n; j ← seq (S i) (n - S i); [(i, j)].

(** Modelled from the spec: what the missing Bond Inference Engine does
    with one pair: a bond of the default kind when the pair is not bonded
    yet and passes the distance test (§4.3). *)
Definition infer_pair (atoms : list Atom.t) (explicit : list Bond.t)
    (p : nat * nat) : option Bond.t :=
  match atoms !! p.1, atoms !! p.2 with
  | Some a, Some b =>
      if negb (connected explicit p.1 p.2) && within_bonding_distance a b
      then Some (Bond.init (Z.of_nat p.1) (Z.of_nat p.2) None)
      else None
  | _, _ => None
  end.

(** Modelled from the spec: the missing Bond Inference Engine (§4.3): the
    explicit bonds followed by one single bond for every pair of atoms,
    by ascending index, that is not already bonded and passes the
    distance test. *)
Definition infer_bonds (atoms : list Atom.t) (explicit : list Bond.t)
    : list Bond.t :=
  explicit ++ omap (infer_pair atoms explicit) (index_pairs (length atoms)).

(** Modelled from the spec: the missing loader ([PDBLoader]), the control
    flow of §2: parse, group, infer bonds, aggregate. *)
Definition load_lines (lines : list line) : outcome contents :=
  match parse lines with
  | Loaded (title, atoms, explicit) =>
      Loaded (mk_contents title atoms (infer_bonds atoms explicit)
                (group_residues atoms) (chain_list atoms))
  | FormatError n => FormatError n
  end.
End inference.

(** *** Building the objects *)

(** Modelled from the spec: the missing loader creating one [Residue]
    object and the list of its atoms. *)
Definition new_residue (rc : residue_contents) : Py Residue.t :=
  let* atoms := alloc (PyAtomList (rc_atoms rc)) in
  ret (Residue.mk (rc_name rc) (rc_chain_id rc) (rc_seq_num rc) atoms
         (rc_start_idx rc)).

(** Modelled from the spec: the missing loader creating the [Residue]
    objects, in order. *)
Fixpoint new_residues (rcs : list residue_contents) : Py (list Residue.t) :=
  match rcs with
  | [] => ret []
  | rc :: rest =>
      let* r := new_residue rc in
      let* rs := new_residues rest in
      ret (r :: rs)
  end.

(** Modelled from the spec: the aggregation step of the missing loader
    (§2, Structure Model): the lists are created and a [PDBStructure]
    object is constructed from the five field values. *)
Definition new_structure (v : contents) : Py loc :=
  let* atoms := alloc (PyAtomList (c_atoms v)) in
  let* bonds := alloc (PyBondList (c_bonds v)) in
  let* rs := new_residues (c_residues v) in
  let* residues := alloc (PyResidueList rs) in
  let* chains := alloc (PyStrList (c_chains v)) in
  alloc (PyStructure (PDBStructure.mk (c_title v) atoms bonds residues chains)).

(** *** PicoGL Exporter *)

(** Modelled from the spec: a buffer group of the missing PicoGL exporter
    (§4.6, §6): [count], [positions] and [colors]. *)
Record buffer_group : Type := mk_buffer_group {
  count : nat;
  positions : list float;
  colors : list float
}.

(** Modelled from the spec: the document of the missing PicoGL exporter,
    with its top-level keys [atoms] and [bonds] (§6). *)
Record picogl_data : Type := mk_picogl_data {
  pg_atoms : buffer_group;
  pg_bonds : buffer_group
}.

(** Modelled from the spec: a color of the missing exporter's tables, RGB
    (§4.6), and its three floats in order. *)
Definition rgb : Type := float * float * float.
Definition rgb_list (c : rgb) : list float := [c.1.1; c.1.2; c.2].

Section picogl.
(** The per-element and per-bond-kind color tables. *)
Variable element_color : string → rgb.
Variable bond_color : string → rgb.

(** Modelled from the spec: [xs[i]] in the missing exporter, which does
    not validate indices: §3 promises [0 <= i < len(xs)], anything else is
    a contract violation (§7). *)
Definition at_index {A} (xs : list A) (i : Z) : option A :=
  if 0 <=? i then xs !! Z.to_nat i else None.

(** Modelled from the spec: the two endpoint positions a bond contributes
    in the missing PicoGL exporter (§4.6). *)
Definition bond_endpoints (atoms : list Atom.t) (b : Bond.t)
    : option (list float) :=
  a1 ← at_index atoms (Bond.atom1_idx b);
  a2 ← at_index atoms (Bond.atom2_idx b);
  Some ((to_float32 <$> position a1) ++ (to_float32 <$> position a2)).

(** Modelled from the spec: the missing PicoGL exporter
    ([PDBLoader.to_picogl_data], §4.6).  Each group carries a flat
    [positions] array with three floats per entry, a parallel [colors]
    array with one RGB entry per entry of [positions], and [count], the
    number of entries: one per atom, and two, its endpoints, per bond. *)
Definition to_picogl_data (v : contents) : option picogl_data :=
  endpoints ← mapM (bond_endpoints (c_atoms v)) (c_bonds v);
  Some (mk_picogl_data
    (mk_buffer_group
       (length (c_atoms v))
       (concat ((λ atom, to_float32 <$> position atom) <$> c_atoms v))
       (concat ((λ atom, rgb_list (element_color (Atom.element atom)))
                  <$> c_atoms v)))
    (mk_buffer_group
       (2 * length (c_bonds v))
       (concat endpoints)
       (concat ((λ b, rgb_list (bond_color (Bond.bond_type b))
                      ++ rgb_list (bond_color (Bond.bond_type b)))
                  <$> c_bonds v)))).
End picogl.

(** [create_molecular_mesh_data] of
    [picomol/examples/pdb_picogl_simple.py]: the vertex and color arrays
    handed to [MeshData.from_raw], and the number of vertices it logs. *)
Record mesh_arguments : Type := mk_mesh_arguments {
  vertices : list float;
  mesh_colors : list float;
  logged_vertices : Z
}.

Definition create_molecular_mesh_data (picogl_data : picogl_data)
    : mesh_arguments :=
  let atom_positions := positions (pg_atoms picogl_data) in
  let atom_colors := colors (pg_atoms picogl_data) in
  let bond_positions := positions (pg_bonds picogl_data) in
  let bond_colors := colors (pg_bonds picogl_data) in
  let all_vertices := atom_positions ++ bond_positions in
  let all_colors := atom_colors ++ bond_colors in
  mk_mesh_arguments all_vertices all_colors
    (Z.of_nat (length all_vertices) / 3).

(** *** Example values *)

Definition example_radius (element : string) : float :=
  if bool_decide (element = "H"%string) then S754_finite false 5584463537939415 (-54)
  else if bool_decide (element = "C"%string) then S754_finite false 6845471433603154 (-53)
  else if bool_decide (element = "N"%string) then S754_finite false 6395111470866104 (-53)
  else if bool_decide (element = "O"%string) then S754_finite false 5944751508129055 (-53)
  else if bool_decide (element = "S"%string) then S754_finite false 4728779608739021 (-52)
  else S754_finite false 6935543426150564 (-53).

(** [1.2] and [0.4]. *)
Definition example_tolerance : float := S754_finite false 5404319552844595 (-52).
Definition example_min_distance : float := S754_finite false 7205759403792794 (-54).

(** [1.5], [10.0] and [0.5]. *)
Definition float_1_5 : float := S754_finite false 6755399441055744 (-52).
Definition float_10_0 : float := S754_finite false 5629499534213120 (-49).
Definition float_0_5 : float := S754_finite false 4503599627370496 (-53).

Definition example_element_color (element : string) : rgb :=
  if bool_decide (element = "C"%string) then (float_0_5, float_0_5, float_0_5)
  else (float_1_0, float_0_0, float_0_0).

Definition example_bond_color (kind : string) : rgb :=
  (float_0_5, float_0_5, float_0_5).

Definition example_load : list line → outcome contents :=
  load_lines example_radius example_tolerance example_min_distance.

(** The scenario of §8: carbons at the origin and at [(1.5, 0, 0)], an
    oxygen at [(10, 0, 0)], no connectivity records. *)
Definition example_lines : list line :=
  [ HeaderLine "three atoms";
    AtomLine (Atom.init 1 "C1" "LIG" "A" 1 float_0_0 float_0_0 float_0_0 "C"
                None None None);
    AtomLine (Atom.init 2 "C2" "LIG" "A" 1 float_1_5 float_0_0 float_0_0 "C"
                None None None);
    AtomLine (Atom.init 3 "O1" "HOH" "A" 2 float_10_0 float_0_0 float_0_0 "O"
                None None None) ].

(** The same atoms, with a connectivity record between serials 2 and 3. *)
Definition example_lines_connect : list line :=
  example_lines ++ [ConnectLine 2 [3]].

(** *** The invariants of §3, as predicates *)

(** Both indices of the bond are indices of the atom sequence, and they
    differ. *)
Definition bond_ok (n : nat) (b : Bond.t) : Prop :=
  0 ≤ Bond.atom1_idx b < Z.of_nat n ∧
  0 ≤ Bond.atom2_idx b < Z.of_nat n ∧
  Bond.atom1_idx b ≠ Bond.atom2_idx b.

(** What the parser keeps true: the lookup holds indices of atoms read so
    far, and so do the bonds. *)
Definition parser_inv (st : parser_state) : Prop :=
  (∀ s i, ps_index st !! s = Some i → (i < length (ps_atoms st))%nat) ∧
  Forall (bond_ok (length (ps_atoms st))) (ps_bonds st).

(** Atom [i] of the atom sequence is the atom at offset [i - start_idx] of
    the residue. *)
Definition residue_holds (r : residue_contents) (i : nat) (atom : Atom.t) : Prop :=
  rc_start_idx r ≤ Z.of_nat i < rc_start_idx r + Z.of_nat (length (rc_atoms r)) ∧
  rc_atoms r !! (i - Z.to_nat (rc_start_idx r))%nat = Some atom.

(** The residues lie one after the other from index [offset] on, none of
    them empty. *)
Fixpoint consecutive (offset : nat) (rs : list residue_contents) : Prop :=
  match rs with
  | [] => True
  | r :: rest =>
      rc_start_idx r = Z.of_nat offset ∧ rc_atoms r ≠ [] ∧
      consecutive (offset + length (rc_atoms r)) rest
  end.

(** What [example_load] yields on [example_lines_connect]. *)
Definition example_loaded : contents :=
  Eval vm_compute in
    match example_load example_lines_connect with
    | Loaded v => v
    | FormatError _ => mk_contents "" [] [] [] []
    end.


(** ** JSON documents and [json.dump] *)

(** What a MolViewSpec document is made of: the values [json] writes and
    reads back.  A dict is the sequence of its items in insertion order;
    its keys are strings. *)
#[local] Unset Elimination Schemes.
Inductive json : Type :=
  | JNull
  | JBool (b : bool)
  | JInt (n : Z)
  | JStr (s : string)
  | JList (items : list json)
  | JDict (members : list (string * json)).
#[local] Set Elimination Schemes.

(** Text in the making: a sequence of characters. *)
Definition text : Type := list ascii.

Definition chars (s : string) : text := list_ascii_of_string s.

Definition code (c : ascii) : N := N_of_ascii c.

(** The line feed and the carriage return. *)
Definition LF : ascii := "010"%char.
Definition CR : ascii := "013"%char.

Definition hex_digit (n : N) : ascii :=
  nth (N.to_nat n) (chars "0123456789abcdef") "0"%char.

(** [json.encoder.py_encode_basestring_ascii], the string encoder used
    with the default [ensure_ascii=True]: a character outside
    [' '..'~'], a quote or a backslash is replaced by its escape. *)
Definition escape_char (c : ascii) : text :=
  if Ascii.eqb c "034"%char then ["092"%char; "034"%char]
  else if Ascii.eqb c "092"%char then ["092"%char; "092"%char]
  else if Ascii.eqb c LF then ["092"%char; "n"%char]
  else if Ascii.eqb c CR then ["092"%char; "r"%char]
  else if Ascii.eqb c "009"%char then ["092"%char; "t"%char]
  else if Ascii.eqb c "008"%char then ["092"%char; "b"%char]
  else if Ascii.eqb c "012"%char then ["092"%char; "f"%char]
  else if (32 <=? code c)%N && (code c <=? 126)%N then [c]
  else "092"%char :: chars "u00" ++ [hex_digit (code c / 16); hex_digit (code c mod 16)].

Definition encode_basestring_ascii (s : string) : text :=
  "034"%char :: concat (escape_char <$> chars s) ++ ["034"%char].

(** [int.__repr__] *)
Definition int_repr (n : Z) : text :=
  chars (NilEmpty.string_of_int (Z.to_int n)).

(** [separator.join(parts)] *)
Fixpoint join (separator : text) (parts : list text) : text :=
  match parts with
  | [] => []
  | [p] => p
  | p :: rest => p ++ separator ++ join separator rest
  end.

(** With [indent] given, the item separator is [","] and the key
    separator is [": "]. *)
Definition item_separator : text := chars ",".
Definition key_separator : text := chars ": ".

(** A line feed and [indent * level] spaces. *)
Definition newline_indent (indent level : nat) : text :=
  LF :: replicate (indent * level) " "%char.

(** [json.encoder._make_iterencode] for an integer [indent]; the result
    is the concatenation of the chunks it yields. *)
Fixpoint iterencode (indent : nat) (current_indent_level : nat) (o : json)
    : text :=
  match o with
  | JStr s => encode_basestring_ascii s
  | JNull => chars "null"
  | JBool true => chars "true"
  | JBool false => chars "false"
  | JInt n => int_repr n
  | JList [] => chars "[]"
  | JList items =>
      chars "["
      ++ newline_indent indent (S current_indent_level)
      ++ join (item_separator ++ newline_indent indent (S current_indent_level))
           (iterencode indent (S current_indent_level) <$> items)
      ++ newline_indent indent current_indent_level
      ++ chars "]"
  | JDict [] => chars "{}"
  | JDict members =>
      chars "{"
      ++ newline_indent indent (S current_indent_level)
      ++ join (item_separator ++ newline_indent indent (S current_indent_level))
           ((λ kv, encode_basestring_ascii kv.1 ++ key_separator
                   ++ iterencode indent (S current_indent_level) kv.2)
              <$> members)
      ++ newline_indent indent current_indent_level
      ++ chars "}"
  end.

(** What [json.dump(obj, fp, indent=2)] writes to [fp]. *)
Definition json_dump (obj : json) : text := iterencode 2 0 obj.

(** *** Reading JSON text back *)

Definition is_whitespace (c : ascii) : bool :=
  Ascii.eqb c " "%char || Ascii.eqb c LF || Ascii.eqb c CR
  || Ascii.eqb c "009"%char.

Fixpoint skip_whitespace (s : text) : text :=
  match s with
  | c :: rest => if is_whitespace c then skip_whitespace rest else s
  | [] => []
  end.

Definition hex_value (c : ascii) : option N :=
  let n := code c in
  if (48 <=? n)%N && (n <=? 57)%N then Some (n - 48)%N
  else if (97 <=? n)%N && (n <=? 102)%N then Some (n - 87)%N
  else if (65 <=? n)%N && (n <=? 70)%N then Some (n - 55)%N
  else None.

(** The character a one-letter escape stands for. *)
Definition unescape (c : ascii) : option ascii :=
  if Ascii.eqb c "034"%char then Some "034"%char
  else if Ascii.eqb c "092"%char then Some "092"%char
  else if Ascii.eqb c "/"%char then Some "/"%char
  else if Ascii.eqb c "b"%char then Some "008"%char
  else if Ascii.eqb c "f"%char then Some "012"%char
  else if Ascii.eqb c "n"%char then Some LF
  else if Ascii.eqb c "r"%char then Some CR
  else if Ascii.eqb c "t"%char then Some "009"%char
  else None.

Definition cons_fst {A B} (a : A) (r : option (list A * B)) : option (list A * B) :=
  match r with
  | Some (l, b) => Some (a :: l, b)
  | None => None
  end.

(** The body of a string up to its closing quote, escapes resolved; raw
    control characters are refused. *)
Fixpoint scan_string (s : text) : option (text * text) :=
  match s with
  | [] => None
  | c :: rest =>
      if Ascii.eqb c "034"%char then Some ([], rest)
      else if Ascii.eqb c "092"%char then
        match rest with
        | e :: rest' =>
            if Ascii.eqb e "u"%char then
              match rest' with
              | h3 :: h2 :: h1 :: h0 :: rest'' =>
                  match hex_value h3, hex_value h2, hex_value h1, hex_value h0 with
                  | Some 0%N, Some 0%N, Some d1, Some d0 =>
                      cons_fst (ascii_of_N (16 * d1 + d0)) (scan_string rest'')
                  | _, _, _, _ => None
                  end
              | _ => None
              end
            else
              match unescape e with
              | Some ch => cons_fst ch (scan_string rest')
              | None => None
              end
        | [] => None
        end
      else if (code c <? 32)%N then None
      else cons_fst c (scan_string rest)
  end.

Definition is_digit (c : ascii) : bool := (48 <=? code c)%N && (code c <=? 57)%N.

Fixpoint span_digits (s : text) : text * text :=
  match s with
  | c :: rest =>
      if is_digit c then let '(ds, r) := span_digits rest in (c :: ds, r)
      else ([], s)
  | [] => ([], [])
  end.

(** An integer: an optional minus sign and a run of digits. *)
Definition scan_int (s : text) : option (Z * text) :=
  let '(sign, body) :=
    match s with
    | c :: rest => if Ascii.eqb c "-"%char then ([c], rest) else ([], s)
    | [] => ([], s)
    end in
  let '(digits, rest) := span_digits body in
  match digits with
  | [] => None
  | _ =>
      match NilEmpty.int_of_string (string_of_list_ascii (sign ++ digits)) with
      | Some d => Some (Z.of_int d, rest)
      | None => None
      end
  end.

Section parse.
(** The reader of one value. *)
Variable parse_value : text → option (json * text).

(** The items of a non-empty array, after its opening bracket. *)
Fixpoint parse_items (fuel : nat) (s : text) : option (list json * text) :=
  match fuel with
  | O => None
  | S fuel' =>
      match parse_value s with
      | Some (v, r) =>
          match skip_whitespace r with
          | c :: r' =>
              if Ascii.eqb c ","%char then
                match parse_items fuel' (skip_whitespace r') with
                | Some (vs, r'') => Some (v :: vs, r'')
                | None => None
                end
              else if Ascii.eqb c "]"%char then Some ([v], r')
              else None
          | [] => None
          end
      | None => None
      end
  end.

(** The members of a non-empty object, after its opening brace. *)
Fixpoint parse_members (fuel : nat) (s : text)
    : option (list (string * json) * text) :=
  match fuel with
  | O => None
  | S fuel' =>
      match s with
      | q :: r0 =>
          if Ascii.eqb q "034"%char then
            match scan_string r0 with
            | Some (k, r1) =>
                match skip_whitespace r1 with
                | c :: r2 =>
                    if Ascii.eqb c ":"%char then
                      match parse_value (skip_whitespace r2) with
                      | Some (v, r3) =>
                          match skip_whitespace r3 with
                          | d :: r4 =>
                              if Ascii.eqb d ","%char then
                                match parse_members fuel' (skip_whitespace r4) with
                                | Some (ms, r5) =>
                                    Some ((string_of_list_ascii k, v) :: ms, r5)
                                | None => None
                                end
                              else if Ascii.eqb d "}"%char then
                                Some ([(string_of_list_ascii k, v)], r4)
                              else None
                          | [] => None
                          end
                      | None => None
                      end
                    else None
                | [] => None
                end
            | None => None
            end
          else None
      | [] => None
      end
  end.
End parse.

Definition strip_prefix (p s : text) : option text :=
  if bool_decide (take (length p) s = p) then Some (drop (length p) s) else None.

(** One JSON value at the head of the text, and the text after it. *)
Fixpoint parse_value (fuel : nat) (s : text) : option (json * text) :=
  match fuel with
  | O => None
  | S fuel' =>
      match s with
      | [] => None
      | c :: rest =>
          if Ascii.eqb c "034"%char then
            match scan_string rest with
            | Some (body, r) => Some (JStr (string_of_list_ascii body), r)
            | None => None
            end
          else if Ascii.eqb c "["%char then
            match skip_whitespace rest with
            | d :: r =>
                if Ascii.eqb d "]"%char then Some (JList [], r)
                else match parse_items (parse_value fuel') fuel' (d :: r) with
                     | Some (vs, r') => Some (JList vs, r')
                     | None => None
                     end
            | [] => None
            end
          else if Ascii.eqb c "{"%char then
            match skip_whitespace rest with
            | d :: r =>
                if Ascii.eqb d "}"%char then Some (JDict [], r)
                else match parse_members (parse_value fuel') fuel' (d :: r) with
                     | Some (ms, r') => Some (JDict ms, r')
                     | None => None
                     end
            | [] => None
            end
          else if Ascii.eqb c "n"%char then
            match strip_prefix (chars "null") s with
            | Some r => Some (JNull, r)
            | None => None
            end
          else if Ascii.eqb c "t"%char then
            match strip_prefix (chars "true") s with
            | Some r => Some (JBool true, r)
            | None => None
            end
          else if Ascii.eqb c "f"%char then
            match strip_prefix (chars "false") s with
            | Some r => Some (JBool false, r)
            | None => None
            end
          else
            match scan_int s with
            | Some (n, r) => Some (JInt n, r)
            | None => None
            end
      end
  end.

(** A whole text as one JSON document, white space around it allowed. *)
Definition json_loads (s : text) : option json :=
  match parse_value (S (length s)) (skip_whitespace s) with
  | Some (v, r) =>
      match skip_whitespace r with
      | [] => Some v
      | _ => None
      end
  | None => None
  end.

Definition example_document : json :=
  JDict [ ("version"%string, JStr "1.0");
          ("name"%string, JStr (String "233"%char (String "034"%char "x")));
          ("count"%string, JInt (-12));
          ("components"%string,
             JList [ JDict [("type"%string, JStr "structure");
                            ("kind"%string, JNull)];
                     JList []; JDict []; JBool true ]) ].


(** The number of values in a document, itself included. *)
Fixpoint weight (v : json) : nat :=
  match v with
  | JList items => S (sum_list (weight <$> items))
  | JDict members => S (sum_list ((λ kv, weight kv.2) <$> members))
  | _ => 1
  end.

(** A character [json.dump] can emit: a line feed or printable ASCII. *)
Definition is_output_char (c : ascii) : bool :=
  Ascii.eqb c LF || ((32 <=? code c)%N && (code c <=? 126)%N).

(** Nothing, or something that does not begin with a digit. *)
Definition delimited (s : text) : Prop :=
  match s with
  | c :: _ => is_digit c = false
  | [] => True
  end.

(** Something that begins like a value: not with white space, not with a
    closing bracket. *)
Definition starts_value (s : text) : Prop :=
  match s with
  | c :: _ =>
      is_whitespace c = false ∧ Ascii.eqb c "]"%char = false ∧
      Ascii.eqb c "}"%char = false
  | [] => False
  end.

(** *** The layout of pretty-printed JSON

    A pretty-printed text seen as lines: each line has a nesting depth and
    a content; a container opens on one line, holds its items one level
    deeper, each followed by a comma except the last, and closes on a line
    of its own at its own depth. *)
Section separated_lines.
Context {A : Type}.
Variable lines_of : A → text → list (nat * text).

(** The lines of the items of a container: a comma ends every item but
    the last. *)
Fixpoint separated_lines (l : list A) : list (nat * text) :=
  match l with
  | [] => []
  | [x] => lines_of x []
  | x :: rest => lines_of x (chars ",") ++ separated_lines rest
  end.
End separated_lines.

Fixpoint pretty_lines (depth : nat) (prefix : text) (v : json) (suffix : text)
    : list (nat * text) :=
  match v with
  | JList ((_ :: _) as items) =>
      (depth, prefix ++ chars "[")
      :: separated_lines (λ x, pretty_lines (S depth) [] x) items
      ++ [(depth, chars "]" ++ suffix)]
  | JDict ((_ :: _) as members) =>
      (depth, prefix ++ chars "{")
      :: separated_lines
           (λ kv, pretty_lines (S depth)
                    (encode_basestring_ascii kv.1 ++ chars ": ") kv.2)
           members
      ++ [(depth, chars "}" ++ suffix)]
  | JList [] => [(depth, prefix ++ chars "[]" ++ suffix)]
  | JDict [] => [(depth, prefix ++ chars "{}" ++ suffix)]
  | JNull => [(depth, prefix ++ chars "null" ++ suffix)]
  | JBool true => [(depth, prefix ++ chars "true" ++ suffix)]
  | JBool false => [(depth, prefix ++ chars "false" ++ suffix)]
  | JInt n => [(depth, prefix ++ int_repr n ++ suffix)]
  | JStr s => [(depth, prefix ++ encode_basestring_ascii s ++ suffix)]
  end.

(** A line of the layout as text: [indent] spaces for every level of
    depth, then the content. *)
Definition render_line (indent : nat) (line : nat * text) : text :=
  replicate (indent * line.1) " "%char ++ line.2.

Definition render (indent : nat) (lines : list (nat * text)) : text :=
  join [LF] (render_line indent <$> lines).

(** The content of a line: not empty, printable characters only (so no
    line feed inside), no space in front. *)
Definition is_printable (c : ascii) : bool :=
  (32 <=? code c)%N && (code c <=? 126)%N.

Definition line_content (l : text) : Prop :=
  Forall (λ c, is_printable c = true) l ∧
  match l with c :: _ => c ≠ " "%char | [] => False end.

(** *** Files *)

(** The UTF-8 encoding of the characters U+0000 to U+00FF. *)
Definition utf8_encode_char (c : ascii) : list byte :=
  if (code c <? 128)%N then [byte_of_ascii c]
  else [byte_of_ascii (ascii_of_N (192 + code c / 64));
        byte_of_ascii (ascii_of_N (128 + code c mod 64))].

Definition utf8_encode (s : text) : list byte := s ≫= utf8_encode_char.

(** What a file opened in text mode does to the text written: every line
    feed becomes the platform's line separator. *)
Definition translate_newlines (linesep : text) (s : text) : text :=
  s ≫= λ c, if Ascii.eqb c LF then linesep else [c].

(** And what it does to the text read: a carriage return, with the line
    feed after it if there is one, becomes a line feed. *)
Fixpoint universal_newlines (s : text) : text :=
  match s with
  | [] => []
  | c :: rest =>
      if Ascii.eqb c CR then
        LF :: match rest with
              | d :: rest' =>
                  if Ascii.eqb d LF then universal_newlines rest'
                  else universal_newlines rest
              | [] => []
              end
      else c :: universal_newlines rest
  end.

Section platform.
(** The platform: the codec of the locale, which [open] uses when no
    [encoding] is given, the line separator [os.linesep], and the paths
    that can be opened for writing. *)
Variable locale_encode : text → option (list byte).
Variable linesep : text.
Variable writable : string → bool.

(** [picomol/molviewspec/save.py]: [None] is a raised exception. *)
Definition save_molviewspec (molviewspec : json) (output_path : string)
    (files : gmap string (list byte)) : option (gmap string (list byte)) :=
  if writable output_path then
    match locale_encode (translate_newlines linesep (json_dump molviewspec)) with
    | Some bytes => Some (<[output_path := bytes]> files)
    | None => None
    end
  else None.
End platform.

(** A codec that agrees with ASCII on ASCII text, as the codecs of
    locales do. *)
Definition ascii_compatible (encode : text → option (list byte)) : Prop :=
  ∀ s, Forall (λ c, (code c < 128)%N) s → encode s = Some (byte_of_ascii <$> s).

(** Latin-1: one byte per character. *)
Definition latin_1_encode (s : text) : option (list byte) :=
  Some (byte_of_ascii <$> s).


(** Induction over documents, with the items of a list and the values of a
    dict covered by the hypothesis. *)
Section json_induction.
Variable P : json → Prop.
Hypothesis Hnull : P JNull.
Hypothesis Hbool : ∀ b, P (JBool b).
Hypothesis Hint : ∀ n, P (JInt n).
Hypothesis Hstr : ∀ s, P (JStr s).
Hypothesis Hlist : ∀ items, Forall P items → P (JList items).
Hypothesis Hdict : ∀ members, Forall (λ kv, P kv.2) members → P (JDict members).

Fixpoint json_ind (v : json) : P v :=
  match v with
  | JNull => Hnull
  | JBool b => Hbool b
  | JInt n => Hint n
  | JStr s => Hstr s
  | JList items =>
      Hlist items
        ((fix go (l : list json) : Forall P l :=
            match l with
            | [] => List.Forall_nil _
            | x :: l' => @List.Forall_cons _ P x l' (json_ind x) (go l')
            end) items)
  | JDict members =>
      Hdict members
        ((fix go (l : list (string * json)) : Forall (λ kv, P kv.2) l :=
            match l with
            | [] => List.Forall_nil _
            | x :: l' => @List.Forall_cons _ (λ kv, P kv.2) x l' (json_ind x.2) (go l')
            end) members)
  end.
End json_induction.

(** What reading one value back means: with enough fuel, the reader
    returns the value and leaves the rest of the text. *)
Definition reads_back (indent : nat) (v : json) : Prop :=
  ∀ fuel level rest,
    (weight v ≤ fuel)%nat → delimited rest →
    parse_value fuel (iterencode indent level v ++ rest) = Some (v, rest).

(** What laying out and rendering one value gives. *)
Definition laid_out (indent : nat) (v : json) : Prop :=
  ∀ depth prefix suffix,
    render indent (pretty_lines depth prefix v suffix)
    = replicate (indent * depth) " "%char ++ prefix
      ++ iterencode indent depth v ++ suffix.

(** A prefix that is empty or does not begin with a space. *)
Definition well_started (prefix : text) : Prop :=
  match prefix with
  | c :: _ => c ≠ " "%char
  | [] => True
  end.

(** ** Further definitions for the methods of [PDBStructure] *)

(** The calls that end in the creation of an object: the two array and
    list builders, and [get_residue_atoms] outside the range of a structure
    with [n] residues. *)
Definition creates_object (n : nat) (c : call) : Prop :=
  match c with
  | CallGetResidueAtoms i => i < 0 ∨ Z.of_nat n ≤ i
  | _ => True
  end.

(** ** The reports of [picomol/examples/demo_pdb_molviewspec.py] *)

(** A log message: a Python [str] as its sequence of code points (the
    messages of the demo hold characters beyond U+00FF). *)
Definition message : Type := list N.

(** Text of characters U+0000 to U+00FF as a message. *)
Definition literal (s : string) : message := code <$> chars s.

(** An integer in an f-string. *)
Definition str_of_int (n : Z) : message := code <$> int_repr n.

Inductive exception : Type :=
  | AttributeError
  | TypeError.

Inductive result (A : Type) : Type :=
  | Returned (a : A)
  | Raised (e : exception).
Arguments Returned {A} a.
Arguments Raised {A} e.

(** A computation that calls [log.message]: the messages logged, in
    order, and how the computation ended.  What was logged before an
    exception stays logged. *)
Definition Logged (A : Type) : Type := list message * result A.

Definition log_ret {A} (a : A) : Logged A := ([], Returned a).

Definition log_bind {A B} (c : Logged A) (k : A → Logged B) : Logged B :=
  match c with
  | (ms, Returned a) => let '(ms', r) := k a in (ms ++ ms', r)
  | (ms, Raised e) => (ms, Raised e)
  end.

Definition log_message (m : message) : Logged unit := ([m], Returned tt).

Definition raise {A} (e : exception) : Logged A := ([], Raised e).

Notation "'log*' x ':=' c 'in' k" := (log_bind c (λ x, k))
  (at level 10, x name, c at level 100, k at level 200).

(** Reading an object of the heap as the class the code expects. *)
Definition expect {A} (o : option A) : Logged A :=
  match o with
  | Some a => log_ret a
  | None => raise TypeError
  end.

(** The handle of a loader: the attribute [structure] is all the demo
    reads. *)
Module PDBLoader.
Record t : Type := mk { structure : loc }.
End PDBLoader.

(** The counting loop [d[k] = d.get(k, 0) + 1] over the keys of a
    sequence, from an empty dict. *)
Definition tally {A} (key : A → string) (xs : list A) : gmap string Z :=
  foldl (λ counts x, <[key x := default 0 (counts !! key x) + 1]> counts)
        ∅ xs.

(** The order of [(str, int)] tuples: by the strings, code point by code
    point, then by the integers. *)
Definition item_le (a b : string * Z) : bool :=
  match String.compare a.1 b.1 with
  | Lt => true
  | Eq => a.2 <=? b.2
  | Gt => false
  end.

Definition item_order (a b : string * Z) : Prop := item_le a b = true.

Global Instance item_order_dec : RelDecision item_order.
Proof. intros a b. unfold item_order. apply _. Defined.

(** [sorted(d.items())] *)
Definition sorted_items (d : gmap string Z) : list (string * Z) :=
  merge_sort item_order (map_to_list d).

(** The line [f"    {name}: {count}"]. *)
Definition count_line (item : string * Z) : message :=
  literal "    " ++ literal item.1 ++ literal ": " ++ str_of_int item.2.

(** [', '.join(chains) if chains else 'None'] *)
Definition chains_text (chains : list string) : message :=
  match chains with
  | [] => literal "None"
  | _ => code <$> join (chars ", ") (chars <$> chains)
  end.

(** [for item in items: log.message(line(item))] *)
Definition log_each {A} (line : A → message) (items : list A) : Logged unit :=
  (line <$> items, Returned tt).

(** [analyze_structure]; the first message begins with a line feed and
    U+1F4CA. *)
Definition analyze_structure (h : heap) (loader : PDBLoader.t) : Logged unit :=
  let structure := PDBLoader.structure loader in
  log* _ := log_message ([10%N; 128202%N] ++ literal " Structure Analysis:") in
  log* this := expect (heap_structure h structure) in
  log* _ := log_message (literal "  Title: "
                         ++ literal (PDBStructure.title this)) in
  log* atoms := expect (heap_atoms h (PDBStructure.atoms this)) in
  log* _ := log_message (literal "  Total Atoms: "
                         ++ str_of_int (Z.of_nat (length atoms))) in
  log* bonds := expect (heap_bonds h (PDBStructure.bonds this)) in
  log* _ := log_message (literal "  Total Bonds: "
                         ++ str_of_int (Z.of_nat (length bonds))) in
  log* residues := expect (heap_residues h (PDBStructure.residues this)) in
  log* _ := log_message (literal "  Total Residues: "
                         ++ str_of_int (Z.of_nat (length residues))) in
  log* chains := expect (heap_strs h (PDBStructure.chains this)) in
  log* _ := log_message (literal "  Chains: " ++ chains_text chains) in
  let elements := tally Atom.element atoms in
  log* _ := log_message (literal "  Element Composition:") in
  log* _ := log_each count_line (sorted_items elements) in
  let residue_types := tally Residue.name residues in
  log* _ := log_message (literal "  Residue Types:") in
  log_each count_line (sorted_items residue_types).

(** How often a key occurs among the keys of a sequence. *)
Definition occurrences {A} (key : A → string) (k : string) (xs : list A) : Z :=
  Z.of_nat (length (filter (λ x, key x = k) xs)).

(** *** [show_molviewspec_info] *)

(** [d.get(key)] on the items of a dict. *)
Fixpoint dict_get (members : list (string * json)) (key : string)
    : option json :=
  match members with
  | [] => None
  | (k, v) :: rest => if String.eqb k key then Some v else dict_get rest key
  end.

(** [o.get(key, default)]: only a dict has the method. *)
Definition get (o : json) (key : string) (default_value : json) : Logged json :=
  match o with
  | JDict members => log_ret (default default_value (dict_get members key))
  | _ => raise AttributeError
  end.

(** [len(o)] *)
Definition py_len (o : json) : Logged Z :=
  match o with
  | JList items => log_ret (Z.of_nat (length items))
  | JDict members => log_ret (Z.of_nat (length members))
  | JStr s => log_ret (Z.of_nat (String.length s))
  | _ => raise TypeError
  end.

(** What iterating over [o] yields: the items of a list, the keys of a
    dict, the characters of a string. *)
Definition py_iter (o : json) : Logged (list json) :=
  match o with
  | JList items => log_ret items
  | JDict members => log_ret ((λ kv, JStr kv.1) <$> members)
  | JStr s => log_ret ((λ c, JStr (String c EmptyString)) <$> chars s)
  | _ => raise TypeError
  end.

Section show_molviewspec_info.
(** [str] of a list or a dict, which this development does not spell
    out. *)
Variable repr_container : json → message.

(** A value in an f-string: [str(value)]. *)
Definition py_str (v : json) : message :=
  match v with
  | JNull => literal "None"
  | JBool true => literal "True"
  | JBool false => literal "False"
  | JInt n => str_of_int n
  | JStr s => literal s
  | _ => repr_container v
  end.

(** The line [f"    Component {i+1}: {comp_type} - {comp_kind}"]. *)
Definition component_line (i : Z) (comp_type comp_kind : json) : message :=
  literal "    Component " ++ str_of_int (i + 1) ++ literal ": "
  ++ py_str comp_type ++ literal " - " ++ py_str comp_kind.

(** The loop over [enumerate(components)], from index [i] on. *)
Fixpoint show_components (i : Z) (components : list json) : Logged unit :=
  match components with
  | [] => log_ret tt
  | component :: rest =>
      log* comp_type := get component "type" (JStr "Unknown") in
      log* comp_kind := get component "kind" (JStr "Unknown") in
      log* _ := log_message (component_line i comp_type comp_kind) in
      show_components (i + 1) rest
  end.

(** [show_molviewspec_info]; the first message begins with a line feed
    and U+1F50D. *)
Definition show_molviewspec_info (molviewspec : json) : Logged unit :=
  log* _ := log_message ([10%N; 128269%N]
                         ++ literal " MolViewSpec Information:") in
  log* version := get molviewspec "version" (JStr "Unknown") in
  log* _ := log_message (literal "  Version: " ++ py_str version) in
  log* name := get molviewspec "name" (JStr "Unknown") in
  log* _ := log_message (literal "  Name: " ++ py_str name) in
  log* description := get molviewspec "description" (JStr "None") in
  log* _ := log_message (literal "  Description: " ++ py_str description) in
  log* components := get molviewspec "components" (JList []) in
  log* count := py_len components in
  log* _ := log_message (literal "  Components: " ++ str_of_int count) in
  log* components := get molviewspec "components" (JList []) in
  log* items := py_iter components in
  show_components 0 items.

(** The messages before the component lines, for a dict. *)
Definition information_lines (members : list (string * json)) (count : Z)
    : list message :=
  [ [10%N; 128269%N] ++ literal " MolViewSpec Information:";
    literal "  Version: "
      ++ py_str (default (JStr "Unknown") (dict_get members "version"));
    literal "  Name: "
      ++ py_str (default (JStr "Unknown") (dict_get members "name"));
    literal "  Description: "
      ++ py_str (default (JStr "None") (dict_get members "description"));
    literal "  Components: " ++ str_of_int count ].

(** The line of the component at position [i], when it is a dict. *)
Definition dict_component_line (i : nat) (members : list (string * json))
    : message :=
  component_line (Z.of_nat i)
    (default (JStr "Unknown") (dict_get members "type"))
    (default (JStr "Unknown") (dict_get members "kind")).
End show_molviewspec_info.

Definition is_dict (v : json) : bool :=
  match v with JDict _ => true | _ => false end.

(** Example documents: one in the shape the demo expects, one whose
    second component is not a dict, one whose [components] has no
    length. *)
Definition example_components : list json :=
  [ JDict [("type"%string, JStr "structure"); ("kind"%string, JStr "pdb")];
    JDict [("type"%string, JStr "representation")] ].

Definition example_members : list (string * json) :=
  [ ("version"%string, JStr "1.0");
    ("name"%string, JStr "demo");
    ("components"%string, JList example_components) ].

Definition example_members_broken : list (string * json) :=
  [ ("components"%string,
       JList ([JDict [("type"%string, JStr "structure")]]
              ++ JStr "oops" :: example_components)) ].

Definition example_members_unsized : list (string * json) :=
  [ ("name"%string, JStr "demo"); ("components"%string, JInt 3) ].

Definition example_repr_container (v : json) : message := literal "[...]".

(** The items of a dict. *)
Definition members_of (v : json) : list (string * json) :=
  match v with JDict members => members | _ => [] end.

(** The first six messages of [analyze_structure], for the contents of a
    structure. *)
Definition summary_lines (v : contents) : list message :=
  [ [10%N; 128202%N] ++ literal " Structure Analysis:";
    literal "  Title: " ++ literal (c_title v);
    literal "  Total Atoms: " ++ str_of_int (Z.of_nat (length (c_atoms v)));
    literal "  Total Bonds: " ++ str_of_int (Z.of_nat (length (c_bonds v)));
    literal "  Total Residues: "
      ++ str_of_int (Z.of_nat (length (c_residues v)));
    literal "  Chains: " ++ chains_text (c_chains v) ].

(** The names come one after the other in strictly ascending order. *)
Definition ascending_names (items : list (string * Z)) : Prop :=
  Sorted (λ a b, String.ltb a.1 b.1 = true) items.

(** The sum of the counts. *)
Definition total_count (items : list (string * Z)) : Z :=
  foldr (λ item acc, item.2 + acc) 0 items.

(** * Properties *)

(** ** The heap *)

Section heap_facts.
Implicit Types (h : heap) (l : loc) (o : pyobj).

Lemma alloc_spec o h :
  ∃ l h', alloc o h = Some (l, h') ∧ h !! l = None ∧ h' = <[l := o]> h.
Proof.
  exists (fresh (dom h)), (<[fresh (dom h) := o]> h).
  split; [reflexivity|]. split; [|reflexivity].
  apply not_elem_of_dom, is_fresh.
Qed.

Lemma alloc_extends o h l h' :
  alloc o h = Some (l, h') → h ⊆ h' ∧ h' !! l = Some o ∧ h !! l = None.
Proof.
  destruct (alloc_spec o h) as (l0 & h0 & Ha & Hfresh & ->).
  rewrite Ha. intros [= <- <-].
  split; [by apply insert_subseteq|].
  split; [apply lookup_insert_eq | done].
Qed.

Lemma heap_structure_Some h l v :
  heap_structure h l = Some v ↔ h !! l = Some (PyStructure v).
Proof. unfold heap_structure. destruct (h !! l) as [[]|]; naive_solver. Qed.

Lemma heap_atoms_Some h l v :
  heap_atoms h l = Some v ↔ h !! l = Some (PyAtomList v).
Proof. unfold heap_atoms. destruct (h !! l) as [[]|]; naive_solver. Qed.

Lemma heap_bonds_Some h l v :
  heap_bonds h l = Some v ↔ h !! l = Some (PyBondList v).
Proof. unfold heap_bonds. destruct (h !! l) as [[]|]; naive_solver. Qed.

Lemma heap_residues_Some h l v :
  heap_residues h l = Some v ↔ h !! l = Some (PyResidueList v).
Proof. unfold heap_residues. destruct (h !! l) as [[]|]; naive_solver. Qed.

Lemma heap_strs_Some h l v :
  heap_strs h l = Some v ↔ h !! l = Some (PyStrList v).
Proof. unfold heap_strs. destruct (h !! l) as [[]|]; naive_solver. Qed.

Lemma heap_array_Some h l v :
  heap_array h l = Some v ↔ h !! l = Some (PyArray v).
Proof. unfold heap_array. destruct (h !! l) as [[]|]; naive_solver. Qed.

(** What [contents_of] reads, spelled out. *)
Lemma contents_of_Some h self v :
  contents_of h self = Some v ↔
  ∃ this residues,
    h !! self = Some (PyStructure this) ∧
    h !! PDBStructure.atoms this = Some (PyAtomList (c_atoms v)) ∧
    h !! PDBStructure.bonds this = Some (PyBondList (c_bonds v)) ∧
    h !! PDBStructure.residues this = Some (PyResidueList residues) ∧
    Forall2 (λ r rc, residue_contents_of h r = Some rc) residues (c_residues v) ∧
    h !! PDBStructure.chains this = Some (PyStrList (c_chains v)) ∧
    c_title v = PDBStructure.title this.
Proof.
  unfold contents_of. split.
  - intros H.
    destruct (heap_structure h self) as [this|] eqn:E1; [|done].
    simpl in H.
    destruct (heap_atoms h _) as [a|] eqn:E2; [|done].
    simpl in H.
    destruct (heap_bonds h _) as [b|] eqn:E3; [|done].
    simpl in H.
    destruct (heap_residues h _) as [r|] eqn:E4; [|done].
    simpl in H.
    destruct (mapM _ r) as [rcs|] eqn:E5; [|done].
    simpl in H.
    destruct (heap_strs h _) as [c|] eqn:E6; [|done].
    simpl in H. injection H as <-. simpl.
    exists this, r.
    rewrite <- heap_structure_Some, <- heap_atoms_Some, <- heap_bonds_Some,
      <- heap_residues_Some, <- heap_strs_Some.
    apply mapM_Some in E5. done.
  - intros (this & r & H1 & H2 & H3 & H4 & H5 & H6 & H7).
    apply heap_structure_Some in H1. apply heap_atoms_Some in H2.
    apply heap_bonds_Some in H3. apply heap_residues_Some in H4.
    apply heap_strs_Some in H6. apply mapM_Some in H5.
    rewrite H1. simpl. rewrite H2. simpl. rewrite H3. simpl.
    rewrite H4. simpl. rewrite H5. simpl. rewrite H6. simpl.
    destruct v; simpl in *; congruence.
Qed.

Lemma residue_contents_of_Some h r rc :
  residue_contents_of h r = Some rc ↔
  h !! Residue.atoms r = Some (PyAtomList (rc_atoms rc)) ∧
  rc = mk_residue_contents (Residue.name r) (Residue.chain_id r)
         (Residue.seq_num r) (rc_atoms rc) (Residue.start_idx r).
Proof.
  unfold residue_contents_of. rewrite <- heap_atoms_Some.
  destruct (heap_atoms h _) as [a|]; simpl; [|by split; [|intros []]].
  split.
  - intros [= <-]. done.
  - intros [[= ->] ->]. done.
Qed.

(** Objects are never destroyed or overwritten by an extension of the
    heap, so whatever a structure holds it keeps holding. *)
Lemma contents_of_weaken h h' self v :
  h ⊆ h' → contents_of h self = Some v → contents_of h' self = Some v.
Proof.
  intros Hsub. rewrite !contents_of_Some.
  intros (this & r & H1 & H2 & H3 & H4 & H5 & H6 & H7).
  exists this, r.
  repeat split; try (eapply lookup_weaken; eassumption); try done.
  eapply Forall2_impl; [exact H5|].
  intros x y. rewrite !residue_contents_of_Some.
  intros [Ha Hb]. split; [|done]. eapply lookup_weaken; eassumption.
Qed.
End heap_facts.

(** ** The methods of [PDBStructure], one by one *)

Section methods.
Implicit Types (h : heap) (self l : loc) (v : contents).

Lemma get_atom_positions_run h self v :
  contents_of h self = Some v →
  ∃ l h', get_atom_positions self h = Some (l, h') ∧ h ⊆ h' ∧
          h !! l = None ∧
          h' !! l = Some (PyArray (np_array_float32 (position <$> c_atoms v))).
Proof.
  intros (this & r & H1 & H2 & _)%contents_of_Some.
  unfold get_atom_positions, bind, load.
  apply heap_structure_Some in H1. apply heap_atoms_Some in H2.
  rewrite H1, H2.
  destruct (alloc_spec (PyArray (np_array_float32 (position <$> c_atoms v))) h)
    as (l & h' & Ha & Hl & Hh').
  exists l, h'. split; [exact Ha|].
  apply alloc_extends in Ha. tauto.
Qed.

Lemma get_atom_elements_run h self v :
  contents_of h self = Some v →
  ∃ l h', get_atom_elements self h = Some (l, h') ∧ h ⊆ h' ∧
          h !! l = None ∧
          h' !! l = Some (PyStrList (Atom.element <$> c_atoms v)).
Proof.
  intros (this & r & H1 & H2 & _)%contents_of_Some.
  unfold get_atom_elements, bind, load.
  apply heap_structure_Some in H1. apply heap_atoms_Some in H2.
  rewrite H1, H2.
  destruct (alloc_spec (PyStrList (Atom.element <$> c_atoms v)) h)
    as (l & h' & Ha & Hl & Hh').
  exists l, h'. split; [exact Ha|].
  apply alloc_extends in Ha. tauto.
Qed.

(** Inside the range the method hands out the reference stored in the
    residue, and touches nothing. *)
Lemma get_residue_atoms_inside h self this residues residue residue_idx :
  h !! self = Some (PyStructure this) →
  h !! PDBStructure.residues this = Some (PyResidueList residues) →
  0 ≤ residue_idx →
  residues !! Z.to_nat residue_idx = Some residue →
  get_residue_atoms self residue_idx h = Some (Residue.atoms residue, h).
Proof.
  intros H1%heap_structure_Some H2%heap_residues_Some Hpos Hget.
  unfold get_residue_atoms, bind, load. rewrite H1, H2.
  assert (residue_idx < Z.of_nat (length residues)) as Hlt.
  { apply lookup_lt_Some in Hget. lia. }
  apply Z.leb_le in Hpos. apply Z.ltb_lt in Hlt. rewrite Hpos, Hlt. simpl.
  unfold getitem. rewrite Hget. reflexivity.
Qed.

(** Outside the range it creates a new, empty list. *)
Lemma get_residue_atoms_outside h self this residues residue_idx :
  h !! self = Some (PyStructure this) →
  h !! PDBStructure.residues this = Some (PyResidueList residues) →
  residue_idx < 0 ∨ Z.of_nat (length residues) ≤ residue_idx →
  ∃ l h', get_residue_atoms self residue_idx h = Some (l, h') ∧ h ⊆ h' ∧
          h !! l = None ∧ h' !! l = Some (PyAtomList []).
Proof.
  intros H1%heap_structure_Some H2%heap_residues_Some Hout.
  unfold get_residue_atoms, bind, load. rewrite H1, H2.
  assert ((0 <=? residue_idx) && (residue_idx <? Z.of_nat (length residues))
          = false) as ->.
  { apply andb_false_iff. rewrite Z.leb_gt, Z.ltb_ge. lia. }
  destruct (alloc_spec (PyAtomList []) h) as (l & h' & Ha & Hl & Hh').
  exists l, h'. split; [exact Ha|].
  apply alloc_extends in Ha. tauto.
Qed.

Lemma get_residue_atoms_run h self v residue_idx :
  contents_of h self = Some v →
  ∃ l h', get_residue_atoms self residue_idx h = Some (l, h') ∧ h ⊆ h'.
Proof.
  intros (this & r & H1 & _ & _ & H4 & H5 & _)%contents_of_Some.
  destruct (decide (0 ≤ residue_idx < Z.of_nat (length r))) as [Hin|Hout].
  - destruct (lookup_lt_is_Some_2 r (Z.to_nat residue_idx)) as [x Hx]; [lia|].
    exists (Residue.atoms x), h. split; [|done].
    eapply get_residue_atoms_inside; eauto. lia.
  - destruct (get_residue_atoms_outside h self this r residue_idx)
      as (l & h' & Hrun & Hsub & _); [done|done|lia|].
    by exists l, h'.
Qed.

Lemma perform_run h self v c :
  contents_of h self = Some v →
  ∃ l h', perform self c h = Some (l, h') ∧ h ⊆ h'.
Proof.
  intros Hv. destruct c as [| |i]; simpl.
  - destruct (get_atom_positions_run h self v Hv) as (l & h' & ? & ? & _).
    by exists l, h'.
  - destruct (get_atom_elements_run h self v Hv) as (l & h' & ? & ? & _).
    by exists l, h'.
  - by eapply get_residue_atoms_run.
Qed.

Lemma perform_all_run h self v cs :
  contents_of h self = Some v →
  ∃ rs h', perform_all self cs h = Some (rs, h') ∧ h ⊆ h' ∧
           length rs = length cs.
Proof.
  revert h. induction cs as [|c cs IH]; intros h Hv; simpl.
  - by exists [], h.
  - destruct (perform_run h self v c Hv) as (l & h1 & Hc & Hsub1).
    destruct (IH h1) as (rs & h2 & Hcs & Hsub2 & Hlen).
    { by eapply contents_of_weaken. }
    exists (l :: rs), h2. unfold bind. rewrite Hc, Hcs.
    split; [done|]. split; [by etrans|]. simpl. by rewrite Hlen.
Qed.
End methods.

(** ** Arrays *)

Section arrays.
Lemma drop_concat_uniform {A} (w : nat) (rows : list (list A)) (i : nat) :
  Forall (λ r, length r = w) rows →
  drop (i * w) (concat rows) = concat (drop i rows).
Proof.
  revert rows. induction i as [|i IH]; intros rows Hw; [done|].
  destruct rows as [|r rows]; simpl.
  - by rewrite drop_nil.
  - inversion Hw as [|? ? Hr Hrows]; subst.
    rewrite drop_app_add'; [|done]. by apply IH.
Qed.

Lemma row_np_array_float32 (rows : list (list float)) (i : nat) (r : list float) :
  Forall (λ r, length r = 3%nat) rows →
  rows !! i = Some r →
  row (np_array_float32 rows) i = to_float32 <$> r.
Proof.
  intros Hw Hi.
  assert (length r = 3%nat) as Hr.
  { by eapply (Forall_lookup_1 _ _ _ _ Hw). }
  assert (take 3 (drop (i * 3) (concat rows)) = r) as Htake.
  { rewrite (drop_concat_uniform 3); [|done].
    rewrite (drop_S _ _ _ Hi). simpl.
    by rewrite take_app_length'. }
  unfold np_array_float32, row.
  destruct rows as [|r0 rows0]; [done|].
  assert (length r0 = 3%nat) as -> by (by inversion Hw).
  cbn [shape data]. by rewrite <- fmap_drop, <- fmap_take, Htake.
Qed.

Lemma length_concat_uniform {A} (w : nat) (rows : list (list A)) :
  Forall (λ r, length r = w) rows →
  length (concat rows) = (length rows * w)%nat.
Proof.
  induction 1 as [|r rows Hr _ IH]; [done|].
  simpl. rewrite length_app, IH, Hr. done.
Qed.

Lemma length_concat_fmap {A B} (w : nat) (f : A → list B) (l : list A) :
  (∀ x, length (f x) = w) →
  length (concat (f <$> l)) = (length l * w)%nat.
Proof.
  intros Hf. rewrite (length_concat_uniform w), length_fmap; [done|].
  apply Forall_fmap, Forall_true. intros x. apply Hf.
Qed.

Lemma position_rows (atoms : list Atom.t) :
  Forall (λ r, length r = 3%nat) (position <$> atoms).
Proof. apply Forall_fmap, Forall_true. done. Qed.

Lemma np_array_float32_positions (atoms : list Atom.t) :
  let arr := np_array_float32 (position <$> atoms) in
  shape arr = match atoms with [] => [0%nat] | _ => [length atoms; 3%nat] end ∧
  length (data arr) = (3 * length atoms)%nat ∧
  ∀ i atom, atoms !! i = Some atom → row arr i = to_float32 <$> position atom.
Proof.
  cbv zeta. split; [|split].
  - destruct atoms; simpl; [done|]. by rewrite length_fmap.
  - pose proof (position_rows atoms) as Hrows.
    pose proof (length_concat_uniform 3 _ Hrows) as Hlen.
    rewrite length_fmap in Hlen.
    destruct atoms as [|a atoms]; [done|].
    unfold np_array_float32. rewrite fmap_cons. cbn [data].
    rewrite length_fmap. rewrite fmap_cons in Hlen. lia.
  - intros i atom Hi. apply row_np_array_float32; [apply position_rows|].
    by rewrite list_lookup_fmap, Hi.
Qed.
End arrays.

(** ** Writing through a reference *)

Section aliasing.
Implicit Types (h : heap) (self l : loc) (v : contents).

Lemma store_live h l o o' :
  h !! l = Some o → store l o' h = Some (tt, <[l := o']> h).
Proof. intros H. unfold store. by rewrite H. Qed.

(** Overwriting a list of atoms by a list of atoms keeps every object of
    the heap in its class, so a structure can still be read afterwards;
    every residue that holds the overwritten list now shows the new
    atoms. *)
Lemma contents_of_store_atoms h self v l old new :
  contents_of h self = Some v →
  h !! l = Some (PyAtomList old) →
  ∃ v2, contents_of (<[l := PyAtomList new]> h) self = Some v2 ∧
        ∀ this residues i r,
          h !! self = Some (PyStructure this) →
          h !! PDBStructure.residues this = Some (PyResidueList residues) →
          residues !! i = Some r →
          Residue.atoms r = l →
          rc_atoms <$> (c_residues v2 !! i) = Some new.
Proof.
  intros (this & rs & H1 & H2 & H3 & H4 & H5 & H6 & H7)%contents_of_Some Hl.
  set (h2 := <[l := PyAtomList new]> h).
  assert (∀ l' o, h !! l' = Some o → l' ≠ l → h2 !! l' = Some o) as Hne.
  { intros l' o Ho Hneq. unfold h2. by rewrite lookup_insert_ne. }
  assert (∀ l' a, h !! l' = Some (PyAtomList a) →
                  ∃ a', h2 !! l' = Some (PyAtomList a') ∧ (l' = l → a' = new))
    as Hat.
  { intros l' a Ha. destruct (decide (l' = l)) as [->|Hneq].
    - exists new. unfold h2. by rewrite lookup_insert_eq.
    - exists a. split; [by apply Hne | done]. }
  assert (is_Some (mapM (residue_contents_of h2) rs)) as [rcs2 Hrcs2].
  { apply mapM_is_Some. eapply Forall2_Forall_l; [exact H5|].
    apply Forall_true. intros rc r (Ha & _)%residue_contents_of_Some.
    destruct (Hat _ _ Ha) as (a' & Ha' & _).
    unfold compose, residue_contents_of.
    apply heap_atoms_Some in Ha'. rewrite Ha'. by eexists. }
  destruct (Hat _ _ H2) as (atoms2 & Hatoms2 & _).
  exists (mk_contents (PDBStructure.title this) atoms2 (c_bonds v) rcs2
            (c_chains v)).
  split.
  - apply contents_of_Some. exists this, rs. simpl.
    repeat split; try done.
    + apply Hne; [done|]. intros Heq. rewrite Heq in *. congruence.
    + apply Hne; [done|]. intros Heq. rewrite Heq in *. congruence.
    + apply Hne; [done|]. intros Heq. rewrite Heq in *. congruence.
    + by apply mapM_Some.
    + apply Hne; [done|]. intros Heq. rewrite Heq in *. congruence.
  - intros this' residues i r Hs Hr Hi Hal. simpl.
    assert (this' = this) as -> by congruence.
    assert (residues = rs) as -> by congruence.
    apply mapM_Some in Hrcs2.
    destruct (Forall2_lookup_l _ _ _ _ _ Hrcs2 Hi) as (rc & Hrc & Hrc').
    rewrite Hrc. simpl. f_equal.
    apply residue_contents_of_Some in Hrc' as [Hrc' _].
    rewrite Hal in Hrc'. unfold h2 in Hrc'.
    rewrite lookup_insert_eq in Hrc'. congruence.
Qed.
End aliasing.

(** ** The structure model: what the design document states *)

(** C1.  A [PDBStructure] exposes three operations, [get_atom_positions],
    [get_atom_elements] and [get_residue_atoms], and none of them mutates:
    for every structure and every sequence of such calls, the calls all
    return, the structure object still holds the same five field values,
    and the title, atoms, bonds, residues (with their atoms) and chains
    reached through them are what they were before. *)
Theorem structure_unchanged_by_its_methods
    (h : heap) (self : loc) (v : contents) (cs : list call) :
  contents_of h self = Some v →
  ∃ rs h', perform_all self cs h = Some (rs, h') ∧
           h' !! self = h !! self ∧
           contents_of h' self = Some v.
Proof.
  intros Hv.
  destruct (perform_all_run h self v cs Hv) as (rs & h' & Hrun & Hsub & _).
  exists rs, h'. split; [done|]. split.
  - apply contents_of_Some in Hv as (this & _ & H1 & _).
    rewrite H1. by eapply lookup_weaken.
  - by eapply contents_of_weaken.
Qed.

Lemma structure_unchanged_by_its_methods_witness :
  ∃ rs h',
    perform_all example_self
      [CallGetAtomPositions; CallGetResidueAtoms 0; CallGetResidueAtoms (-1);
       CallGetAtomElements; CallGetResidueAtoms 7] example_heap
    = Some (rs, h') ∧
    h' !! example_self = example_heap !! example_self ∧
    contents_of h' example_self = Some example_contents.
Proof.
  apply (structure_unchanged_by_its_methods example_heap example_self
           example_contents).
  vm_compute. reflexivity.
Defined.

(** C2.  For every structure and every integer [residue_idx],
    [get_residue_atoms] returns without raising; outside
    [0 <= residue_idx < len(residues)], negative indices included, the
    list it returns is empty, and inside that range the list it returns
    holds exactly the atoms of that residue. *)
Theorem get_residue_atoms_total
    (h : heap) (self : loc) (v : contents) (residue_idx : Z) :
  contents_of h self = Some v →
  ∃ l h', get_residue_atoms self residue_idx h = Some (l, h') ∧
    (residue_idx < 0 ∨ Z.of_nat (length (c_residues v)) ≤ residue_idx →
       heap_atoms h' l = Some []) ∧
    (∀ rc, 0 ≤ residue_idx →
       c_residues v !! Z.to_nat residue_idx = Some rc →
       heap_atoms h' l = Some (rc_atoms rc)).
Proof.
  intros (this & rs & H1 & _ & _ & H4 & H5 & _)%contents_of_Some.
  pose proof (Forall2_length _ _ _ H5) as Hlen.
  destruct (decide (0 ≤ residue_idx < Z.of_nat (length rs))) as [Hin|Hout].
  - destruct (lookup_lt_is_Some_2 rs (Z.to_nat residue_idx)) as [r Hr]; [lia|].
    exists (Residue.atoms r), h.
    split; [eapply get_residue_atoms_inside; eauto; lia|].
    split; [lia|].
    intros rc _ Hrc.
    destruct (Forall2_lookup_l _ _ _ _ _ H5 Hr) as (rc' & Hrc' & Hread).
    assert (rc' = rc) as -> by congruence.
    apply residue_contents_of_Some in Hread as [Hread _].
    by apply heap_atoms_Some.
  - destruct (get_residue_atoms_outside h self this rs residue_idx)
      as (l & h' & Hrun & _ & _ & Hl); [done|done|lia|].
    exists l, h'. split; [done|]. split.
    + intros _. by apply heap_atoms_Some.
    + intros rc Hpos Hrc. apply lookup_lt_Some in Hrc. lia.
Qed.

Lemma get_residue_atoms_total_witness :
  ∃ l h', get_residue_atoms example_self (-3) example_heap = Some (l, h') ∧
    (-3 < 0 ∨ Z.of_nat (length (c_residues example_contents)) ≤ -3 →
       heap_atoms h' l = Some []) ∧
    (∀ rc, 0 ≤ -3 →
       c_residues example_contents !! Z.to_nat (-3) = Some rc →
       heap_atoms h' l = Some (rc_atoms rc)).
Proof.
  apply (get_residue_atoms_total example_heap example_self example_contents).
  vm_compute. reflexivity.
Defined.

(** C3.  For every structure, [get_atom_positions] returns an array that
    is a function of the atom sequence alone, with three numbers per atom:
    row [i] is the [(x, y, z)] of atom [i] of the atom sequence (each
    narrowed to the array's element type).  Calling it again, also after
    any other calls on the structure, yields an equal array, and the one
    returned earlier still has its value. *)
Theorem get_atom_positions_one_row_per_atom
    (h : heap) (self : loc) (v : contents) :
  contents_of h self = Some v →
  ∃ l h' arr,
    get_atom_positions self h = Some (l, h') ∧
    heap_array h' l = Some arr ∧
    arr = np_array_float32 (position <$> c_atoms v) ∧
    shape arr = match c_atoms v with
                | [] => [0%nat]
                | _ => [length (c_atoms v); 3%nat]
                end ∧
    length (data arr) = (3 * length (c_atoms v))%nat ∧
    (∀ i atom, c_atoms v !! i = Some atom →
       row arr i = [to_float32 (Atom.x atom); to_float32 (Atom.y atom);
                    to_float32 (Atom.z atom)]) ∧
    (∀ cs rs h2, perform_all self cs h' = Some (rs, h2) →
       ∃ l2 h3, get_atom_positions self h2 = Some (l2, h3) ∧
                heap_array h3 l2 = Some arr ∧
                heap_array h3 l = Some arr).
Proof.
  intros Hv.
  destruct (get_atom_positions_run h self v Hv) as (l & h' & Hrun & Hsub & _ & Hl).
  destruct (np_array_float32_positions (c_atoms v)) as (Hshape & Hlen & Hrow).
  exists l, h', (np_array_float32 (position <$> c_atoms v)).
  split; [done|]. split; [by apply heap_array_Some|]. split; [done|].
  split; [done|]. split; [done|]. split; [exact Hrow|].
  intros cs rs h2 Hcs.
  assert (contents_of h' self = Some v) as Hv' by (by eapply contents_of_weaken).
  destruct (perform_all_run h' self v cs Hv') as (rs' & h2' & Hcs' & Hsub2 & _).
  rewrite Hcs in Hcs'. injection Hcs' as <- <-.
  assert (contents_of h2 self = Some v) as Hv2 by (by eapply contents_of_weaken).
  destruct (get_atom_positions_run h2 self v Hv2)
    as (l2 & h3 & Hrun2 & Hsub3 & _ & Hl2).
  exists l2, h3. split; [done|]. split; [by apply heap_array_Some|].
  apply heap_array_Some.
  eapply lookup_weaken; [|exact Hsub3]. by eapply lookup_weaken.
Qed.

Lemma get_atom_positions_one_row_per_atom_witness :
  ∃ l h' arr,
    get_atom_positions example_self example_heap = Some (l, h') ∧
    heap_array h' l = Some arr ∧
    arr = np_array_float32 (position <$> c_atoms example_contents) ∧
    shape arr = [2%nat; 3%nat] ∧
    length (data arr) = 6%nat ∧
    (∀ i atom, c_atoms example_contents !! i = Some atom →
       row arr i = [to_float32 (Atom.x atom); to_float32 (Atom.y atom);
                    to_float32 (Atom.z atom)]) ∧
    (∀ cs rs h2, perform_all example_self cs h' = Some (rs, h2) →
       ∃ l2 h3, get_atom_positions example_self h2 = Some (l2, h3) ∧
                heap_array h3 l2 = Some arr ∧
                heap_array h3 l = Some arr).
Proof.
  apply (get_atom_positions_one_row_per_atom example_heap example_self
           example_contents).
  vm_compute. reflexivity.
Defined.

(** C8.  Defaults are named at construction: an [Atom] built without
    [charge], [occupancy] and [b_factor] has the empty string, [1.0] and
    [0.0] there, and a [Bond] built without a kind has [bond_type]
    ["single"]; an argument that is given is the value stored. *)
Theorem dataclass_defaults :
  (∀ serial name res_name chain_id res_seq x y z element,
     let atom := Atom.init serial name res_name chain_id res_seq x y z element
                   None None None in
     Atom.charge atom = ""%string ∧
     Atom.occupancy atom = SFone 53 1024 ∧
     Atom.b_factor atom = S754_zero false) ∧
  (∀ atom1_idx atom2_idx,
     Bond.bond_type (Bond.init atom1_idx atom2_idx None) = "single"%string) ∧
  (∀ serial name res_name chain_id res_seq x y z element charge occupancy b_factor,
     let atom := Atom.init serial name res_name chain_id res_seq x y z element
                   (Some charge) (Some occupancy) (Some b_factor) in
     Atom.charge atom = charge ∧ Atom.occupancy atom = occupancy ∧
     Atom.b_factor atom = b_factor) ∧
  (∀ atom1_idx atom2_idx bond_type,
     Bond.bond_type (Bond.init atom1_idx atom2_idx (Some bond_type)) = bond_type).
Proof. repeat split. Qed.

(** The narrowing on three values: [0.1], whose binary32 neighbour is
    [0x3DCCCCCD]; [2.0 ** 1000], beyond the binary32 range; and a value
    below the smallest binary32 subnormal. *)
Example to_float32_values :
  to_float32 (S754_finite false 7205759403792794 (-56))
  = S754_finite false 13421773 (-27) ∧
  to_float32 (S754_finite false 4503599627370496 948) = S754_infinity false ∧
  to_float32 (S754_finite true 4503599627370496 (-300)) = S754_zero true.
Proof. by vm_compute. Qed.



(** C10.  For every in-range residue index, [get_residue_atoms] creates
    nothing: it returns the very reference held in the residue's [atoms]
    field.  So whatever a caller then writes into the returned list is
    what the residue, and the structure that holds it, contains from then
    on. *)
Theorem get_residue_atoms_returns_the_residue_list
    (h : heap) (self : loc) (v : contents) (residue_idx : Z) :
  contents_of h self = Some v →
  0 ≤ residue_idx < Z.of_nat (length (c_residues v)) →
  ∃ this residues residue,
    h !! self = Some (PyStructure this) ∧
    h !! PDBStructure.residues this = Some (PyResidueList residues) ∧
    residues !! Z.to_nat residue_idx = Some residue ∧
    get_residue_atoms self residue_idx h = Some (Residue.atoms residue, h) ∧
    ∀ new : list Atom.t,
      ∃ h2 v2,
        store (Residue.atoms residue) (PyAtomList new) h = Some (tt, h2) ∧
        contents_of h2 self = Some v2 ∧
        rc_atoms <$> (c_residues v2 !! Z.to_nat residue_idx) = Some new ∧
        (rc_atoms <$> (c_residues v !! Z.to_nat residue_idx) ≠ Some new →
         contents_of h2 self ≠ contents_of h self).
Proof.
  intros Hv Hin.
  pose proof Hv as (this & rs & H1 & _ & _ & H4 & H5 & _)%contents_of_Some.
  pose proof (Forall2_length _ _ _ H5) as Hlen.
  destruct (lookup_lt_is_Some_2 rs (Z.to_nat residue_idx)) as [r Hr]; [lia|].
  exists this, rs, r. split; [done|]. split; [done|]. split; [done|].
  split; [eapply get_residue_atoms_inside; eauto; lia|].
  intros new.
  destruct (Forall2_lookup_l _ _ _ _ _ H5 Hr) as (rc & Hrc & Hread).
  apply residue_contents_of_Some in Hread as [Hread _].
  destruct (contents_of_store_atoms h self v (Residue.atoms r) (rc_atoms rc) new
              Hv Hread) as (v2 & Hv2 & Hnew).
  exists (<[Residue.atoms r := PyAtomList new]> h), v2.
  split; [by eapply store_live|]. split; [done|].
  specialize (Hnew this rs (Z.to_nat residue_idx) r H1 H4 Hr eq_refl).
  split; [done|].
  intros Hdiff. rewrite Hv2, Hv. intros [= ->]. by apply Hdiff.
Qed.

Lemma get_residue_atoms_returns_the_residue_list_witness :
  ∃ this residues residue,
    example_heap !! example_self = Some (PyStructure this) ∧
    example_heap !! PDBStructure.residues this = Some (PyResidueList residues) ∧
    residues !! Z.to_nat 0 = Some residue ∧
    get_residue_atoms example_self 0 example_heap
    = Some (Residue.atoms residue, example_heap) ∧
    ∀ new : list Atom.t,
      ∃ h2 v2,
        store (Residue.atoms residue) (PyAtomList new) example_heap
        = Some (tt, h2) ∧
        contents_of h2 example_self = Some v2 ∧
        rc_atoms <$> (c_residues v2 !! Z.to_nat 0) = Some new ∧
        (rc_atoms <$> (c_residues example_contents !! Z.to_nat 0) ≠ Some new →
         contents_of h2 example_self ≠ contents_of example_heap example_self).
Proof.
  apply (get_residue_atoms_returns_the_residue_list example_heap example_self
           example_contents 0).
  - vm_compute. reflexivity.
  - vm_compute. split; [discriminate | reflexivity].
Defined.

(** ** The loader *)

Section parser_facts.
Lemma bond_ok_mono n m b : (n ≤ m)%nat → bond_ok n b → bond_ok m b.
Proof. unfold bond_ok. lia. Qed.

Lemma resolve_bond_ok index source partner b n :
  (∀ s i, index !! s = Some i → (i < n)%nat) →
  resolve_bond index source partner = Some b →
  bond_ok n b.
Proof.
  intros Hidx. unfold resolve_bond.
  destruct (index !! source) as [i|] eqn:Ei; [|done].
  destruct (index !! partner) as [j|] eqn:Ej; [|done].
  destruct (decide (i = j)) as [|Hne]; [done|].
  intros [= <-]. apply Hidx in Ei, Ej. unfold bond_ok. simpl. lia.
Qed.

Lemma parser_start_inv : parser_inv parser_start.
Proof. split; [intros s i; simpl; by rewrite lookup_empty | constructor]. Qed.

Lemma parse_line_inv n st ln st' :
  parser_inv st → parse_line n st ln = Loaded st' → parser_inv st'.
Proof.
  intros [Hidx Hbonds]. destruct ln as [atom|source partners|text| |]; simpl.
  - intros [= <-]. split; simpl.
    + intros s i. rewrite length_app. simpl.
      destruct (decide (Atom.serial atom = s)) as [->|Hne].
      * rewrite lookup_insert_eq. intros [= <-]. lia.
      * rewrite lookup_insert_ne; [|done]. intros Hi%Hidx. lia.
    + eapply Forall_impl; [exact Hbonds|].
      intros b. apply bond_ok_mono. rewrite length_app. lia.
  - destruct (mapM _ partners) as [bonds|] eqn:E; [|done].
    intros [= <-]. split; simpl; [done|].
    apply Forall_app. split; [done|].
    apply mapM_Some in E.
    eapply Forall2_Forall_r; [exact E|].
    apply Forall_true. intros b p Hres. by eapply resolve_bond_ok.
  - intros [= <-]. done.
  - intros [= <-]. done.
  - done.
Qed.

Lemma parse_lines_inv lines n st st' :
  parser_inv st → parse_lines n st lines = Loaded st' → parser_inv st'.
Proof.
  revert n st. induction lines as [|ln lines IH]; intros n st Hinv; simpl.
  - by intros [= <-].
  - destruct (parse_line n st ln) as [st1|] eqn:E; [|done].
    apply IH. by eapply parse_line_inv.
Qed.

Lemma parse_bonds_ok lines title atoms explicit :
  parse lines = Loaded (title, atoms, explicit) →
  Forall (bond_ok (length atoms)) explicit.
Proof.
  unfold parse.
  destruct (parse_lines 1 parser_start lines) as [st|] eqn:E; [|done].
  intros [= <- <- <-].
  by apply (parse_lines_inv _ _ _ _ parser_start_inv E).
Qed.
End parser_facts.

Section inference_facts.
Variable radius : string → float.
Variable tolerance min_distance : float.

Lemma elem_of_index_pairs n i j :
  (i, j) ∈ index_pairs n ↔ (i < j < n)%nat.
Proof.
  unfold index_pairs. rewrite list_elem_of_bind. split.
  - intros (i' & Hj & Hi'). apply list_elem_of_bind in Hj as (j' & Hp & Hj').
    apply list_elem_of_singleton in Hp as [= -> ->].
    apply elem_of_seq in Hi', Hj'. lia.
  - intros Hij. exists i. split; [|apply elem_of_seq; lia].
    apply list_elem_of_bind. exists j. split; [by left|].
    apply elem_of_seq. lia.
Qed.

Lemma infer_pair_ok atoms explicit p b :
  p ∈ index_pairs (length atoms) →
  infer_pair radius tolerance min_distance atoms explicit p = Some b →
  bond_ok (length atoms) b ∧ Bond.bond_type b = "single"%string.
Proof.
  destruct p as [i j]. intros Hp%elem_of_index_pairs. unfold infer_pair.
  destruct (atoms !! _) as [a1|]; [|done].
  destruct (atoms !! _) as [a2|]; [|done].
  destruct (_ && _); [|done].
  intros [= <-]. unfold bond_ok. simpl in *. split; [lia|done].
Qed.

Lemma infer_bonds_ok atoms explicit :
  Forall (bond_ok (length atoms)) explicit →
  Forall (bond_ok (length atoms))
    (infer_bonds radius tolerance min_distance atoms explicit).
Proof.
  intros Hexp. unfold infer_bonds. apply Forall_app. split; [done|].
  apply Forall_forall. intros b (p & Hp & Hb)%list_elem_of_omap.
  by eapply infer_pair_ok.
Qed.

Lemma load_lines_bonds_ok lines v :
  load_lines radius tolerance min_distance lines = Loaded v →
  Forall (bond_ok (length (c_atoms v))) (c_bonds v).
Proof.
  unfold load_lines.
  destruct (parse lines) as [[[title atoms] explicit]|] eqn:E; [|done].
  intros [= <-]. simpl. apply infer_bonds_ok. by eapply parse_bonds_ok.
Qed.
End inference_facts.

Section grouper_facts.
Implicit Types (rs : list residue_contents) (st : grouper_state).

(** The atoms of a list of residues, one residue after the other. *)
Local Abbreviation flat rs := (concat (rc_atoms <$> rs)).

Lemma consecutive_app offset rs rs' :
  consecutive offset (rs ++ rs') ↔
  consecutive offset rs ∧ consecutive (offset + length (flat rs)) rs'.
Proof.
  revert offset. induction rs as [|r rs IH]; intros offset; simpl.
  - rewrite Nat.add_0_r. tauto.
  - rewrite IH, length_app, Nat.add_assoc. tauto.
Qed.

Lemma group_step_flat st idx atom :
  flat (grouper_result (group_step st idx atom))
  = flat (grouper_result st) ++ [atom].
Proof.
  unfold grouper_result, group_step.
  destruct (g_open st) as [r|]; [destruct (same_residue r atom)|]; simpl;
    rewrite ?fmap_app, ?concat_app; simpl; rewrite ?app_nil_r, <- ?app_assoc;
    done.
Qed.

Lemma group_step_consecutive st idx atom :
  idx = length (flat (grouper_result st)) →
  consecutive 0 (grouper_result st) →
  consecutive 0 (grouper_result (group_step st idx atom)).
Proof.
  unfold grouper_result, group_step. intros Hidx.
  destruct (g_open st) as [r|]; [destruct (same_residue r atom)|]; simpl.
  - rewrite !consecutive_app. simpl.
    intros (Hc & Hs & Hne & _). repeat split; try done.
    by destruct (rc_atoms r).
  - simpl in Hidx. intros Hc.
    apply consecutive_app. split; [done|]. simpl.
    rewrite <- Hidx. done.
  - simpl in Hidx. intros Hc.
    apply consecutive_app. split; [by rewrite app_nil_r in Hc|]. simpl.
    rewrite app_nil_r in Hidx. rewrite <- Hidx. done.
Qed.

Lemma group_loop_spec atoms st idx :
  idx = length (flat (grouper_result st)) →
  consecutive 0 (grouper_result st) →
  flat (grouper_result (group_loop st idx atoms))
  = flat (grouper_result st) ++ atoms ∧
  consecutive 0 (grouper_result (group_loop st idx atoms)).
Proof.
  revert st idx. induction atoms as [|atom atoms IH]; intros st idx Hidx Hc.
  - simpl. by rewrite app_nil_r.
  - simpl. destruct (IH (group_step st idx atom) (S idx)) as [Hflat Hcons].
    + rewrite group_step_flat, length_app. simpl. lia.
    + by apply group_step_consecutive.
    + split; [|done]. by rewrite Hflat, group_step_flat, <- app_assoc.
Qed.

(** The residues, laid end to end, are the atom sequence. *)
Lemma group_residues_flat atoms : flat (group_residues atoms) = atoms.
Proof. by destruct (group_loop_spec atoms (mk_grouper_state [] None) 0). Qed.

Lemma group_residues_consecutive atoms : consecutive 0 (group_residues atoms).
Proof. by destruct (group_loop_spec atoms (mk_grouper_state [] None) 0). Qed.

Lemma consecutive_start offset rs k r :
  consecutive offset rs → rs !! k = Some r →
  Z.of_nat offset ≤ rc_start_idx r.
Proof.
  revert offset k. induction rs as [|r0 rs IH]; intros offset k Hc Hk; [done|].
  destruct Hc as (Hs & _ & Hc). destruct k as [|k]; simpl in Hk.
  - injection Hk as <-. lia.
  - specialize (IH _ _ Hc Hk). lia.
Qed.

(** Every position of the laid-out residues falls into one residue, and
    into no other. *)
Lemma consecutive_holds rs offset i atom :
  consecutive offset rs →
  flat rs !! i = Some atom →
  ∃ k r, rs !! k = Some r ∧ residue_holds r (offset + i) atom ∧
         ∀ k' r' atom', rs !! k' = Some r' →
                        residue_holds r' (offset + i) atom' → k' = k.
Proof.
  revert offset i. induction rs as [|r0 rs IH]; intros offset i Hc Hi; [done|].
  destruct Hc as (Hs & Hne & Hc). simpl in Hi.
  destruct (decide (i < length (rc_atoms r0))%nat) as [Hlt|Hge].
  - rewrite lookup_app_l in Hi by done.
    exists 0%nat, r0. split; [done|]. split.
    + unfold residue_holds. rewrite Hs. split; [lia|].
      by replace (offset + i - Z.to_nat (Z.of_nat offset))%nat with i by lia.
    + intros [|k'] r' atom' Hk' [Hrange _]; [done|]. simpl in Hk'.
      pose proof (consecutive_start _ _ _ _ Hc Hk'). lia.
  - rewrite lookup_app_r in Hi by lia.
    destruct (IH _ _ Hc Hi) as (k & r & Hk & Hholds & Huniq).
    replace (offset + length (rc_atoms r0) + (i - length (rc_atoms r0)))%nat
      with (offset + i)%nat in * by lia.
    exists (S k), r. split; [done|]. split; [done|].
    intros [|k'] r' atom' Hk' Hh'.
    + injection Hk' as <-. destruct Hh' as [Hrange _]. lia.
    + f_equal. by eapply Huniq.
Qed.

Lemma length_flat rs :
  length (flat rs) = sum_list ((λ r, length (rc_atoms r)) <$> rs).
Proof.
  induction rs as [|r rs IH]; [done|]. simpl. rewrite length_app. by f_equal.
Qed.
End grouper_facts.

(** ** Building the objects *)

Section construction.
Implicit Types (h : heap) (v : contents).

Lemma residue_contents_of_weaken h h' r rc :
  h ⊆ h' → residue_contents_of h r = Some rc →
  residue_contents_of h' r = Some rc.
Proof.
  intros Hsub. rewrite !residue_contents_of_Some. intros [Ha Hb].
  split; [|done]. by eapply lookup_weaken.
Qed.

Lemma new_residue_spec rc h :
  ∃ r h', new_residue rc h = Some (r, h') ∧ h ⊆ h' ∧
          residue_contents_of h' r = Some rc.
Proof.
  unfold new_residue, bind.
  destruct (alloc_spec (PyAtomList (rc_atoms rc)) h) as (l & h' & Ha & Hl & Hh').
  rewrite Ha. eexists _, h'. split; [reflexivity|].
  apply alloc_extends in Ha as (Hsub & Hnew & _). split; [done|].
  apply residue_contents_of_Some. simpl. split; [done|]. by destruct rc.
Qed.

Lemma new_residues_spec rcs h :
  ∃ rs h', new_residues rcs h = Some (rs, h') ∧ h ⊆ h' ∧
           Forall2 (λ r rc, residue_contents_of h' r = Some rc) rs rcs.
Proof.
  revert h. induction rcs as [|rc rcs IH]; intros h; simpl.
  - exists [], h. by repeat split.
  - destruct (new_residue_spec rc h) as (r & h1 & Hr & Hsub1 & Hrc).
    destruct (IH h1) as (rs & h2 & Hrs & Hsub2 & Hall).
    exists (r :: rs), h2. unfold bind. rewrite Hr, Hrs.
    split; [done|]. split; [by etrans|].
    constructor; [|done]. by eapply residue_contents_of_weaken.
Qed.

(** A structure built from five field values holds exactly those. *)
Lemma new_structure_contents v h :
  ∃ self h', new_structure v h = Some (self, h') ∧ h ⊆ h' ∧
             contents_of h' self = Some v.
Proof.
  unfold new_structure, bind.
  destruct (alloc_spec (PyAtomList (c_atoms v)) h) as (la & h1 & Ha & _ & _).
  rewrite Ha. apply alloc_extends in Ha as (S1 & La & _).
  destruct (alloc_spec (PyBondList (c_bonds v)) h1) as (lb & h2 & Hb & _ & _).
  rewrite Hb. apply alloc_extends in Hb as (S2 & Lb & _).
  destruct (new_residues_spec (c_residues v) h2) as (rs & h3 & Hrs & S3 & Hall).
  rewrite Hrs.
  destruct (alloc_spec (PyResidueList rs) h3) as (lr & h4 & Hr & _ & _).
  rewrite Hr. apply alloc_extends in Hr as (S4 & Lr & _).
  destruct (alloc_spec (PyStrList (c_chains v)) h4) as (lc & h5 & Hc & _ & _).
  rewrite Hc. apply alloc_extends in Hc as (S5 & Lc & _).
  destruct (alloc_spec
              (PyStructure (PDBStructure.mk (c_title v) la lb lr lc)) h5)
    as (self & h6 & Hs & _ & _).
  rewrite Hs. apply alloc_extends in Hs as (S6 & Ls & _).
  exists self, h6. split; [done|].
  split; [by repeat (etrans; [eassumption|])|].
  apply contents_of_Some. eexists _, rs. split; [exact Ls|]. simpl.
  assert (h1 ⊆ h6) by (by repeat (etrans; [eassumption|])).
  assert (h2 ⊆ h6) by (by repeat (etrans; [eassumption|])).
  assert (h3 ⊆ h6) by (by repeat (etrans; [eassumption|])).
  assert (h4 ⊆ h6) by (by repeat (etrans; [eassumption|])).
  repeat split; try (eapply lookup_weaken; eassumption).
  eapply Forall2_impl; [exact Hall|].
  intros r rc. by apply residue_contents_of_weaken.
Qed.
End construction.

(** ** The PicoGL exporter *)

Section picogl_facts.
Variable element_color : string → rgb.
Variable bond_color : string → rgb.

Lemma at_index_in_range {A} (xs : list A) (i : Z) :
  0 ≤ i < Z.of_nat (length xs) → is_Some (at_index xs i).
Proof.
  intros [Hlo Hhi]. unfold at_index.
  apply Z.leb_le in Hlo. rewrite Hlo. apply lookup_lt_is_Some. lia.
Qed.

Lemma bond_endpoints_ok atoms b :
  bond_ok (length atoms) b →
  ∃ e, bond_endpoints atoms b = Some e ∧ length e = 6%nat.
Proof.
  intros (H1 & H2 & _). unfold bond_endpoints.
  destruct (at_index_in_range atoms _ H1) as [a1 ->].
  destruct (at_index_in_range atoms _ H2) as [a2 ->].
  simpl. by eexists.
Qed.

Lemma bond_endpoints_length atoms b e :
  bond_endpoints atoms b = Some e → length e = 6%nat.
Proof.
  unfold bond_endpoints.
  destruct (at_index atoms (Bond.atom1_idx b)) as [a1|]; simpl; [|done].
  destruct (at_index atoms (Bond.atom2_idx b)) as [a2|]; simpl; [|done].
  by intros [= <-].
Qed.

Lemma to_picogl_data_Some v :
  Forall (bond_ok (length (c_atoms v))) (c_bonds v) →
  is_Some (to_picogl_data element_color bond_color v).
Proof.
  intros Hok. unfold to_picogl_data.
  assert (is_Some (mapM (bond_endpoints (c_atoms v)) (c_bonds v))) as [es ->].
  { apply mapM_is_Some. eapply Forall_impl; [exact Hok|].
    intros b (e & He & _)%bond_endpoints_ok. unfold compose. by rewrite He. }
  simpl. by eexists.
Qed.

(** The arrays of an export line up: three floats per counted entry in
    [positions], and as many in [colors]. *)
Lemma to_picogl_data_aligned v d :
  to_picogl_data element_color bond_color v = Some d →
  count (pg_atoms d) = length (c_atoms v) ∧
  count (pg_bonds d) = (2 * length (c_bonds v))%nat ∧
  length (positions (pg_atoms d)) = (3 * count (pg_atoms d))%nat ∧
  length (colors (pg_atoms d)) = length (positions (pg_atoms d)) ∧
  length (positions (pg_bonds d)) = (3 * count (pg_bonds d))%nat ∧
  length (colors (pg_bonds d)) = length (positions (pg_bonds d)).
Proof.
  unfold to_picogl_data.
  destruct (mapM _ (c_bonds v)) as [es|] eqn:E; [|done].
  change (Some es ≫= ?f) with (f es). cbv beta. intros [= <-].
  cbn [pg_atoms pg_bonds count positions colors].
  apply mapM_Some in E.
  assert (Forall (λ e, length e = 6%nat) es) as Hes.
  { eapply Forall2_Forall_r; [exact E|]. apply Forall_true.
    intros e b. apply bond_endpoints_length. }
  pose proof (Forall2_length _ _ _ E) as Hlen.
  rewrite (length_concat_uniform 6 es Hes).
  rewrite !(length_concat_fmap 3) by done.
  rewrite (length_concat_fmap 6) by done.
  lia.
Qed.
End picogl_facts.

(** ** The scenarios of the design document (§8), run on the model *)

(** Carbons at the origin and at [(1.5, 0, 0)], an oxygen at
    [(10, 0, 0)], no connectivity records: exactly one bond, between atoms
    0 and 1. *)
Example scenario_three_atoms :
  ∃ v, example_load example_lines = Loaded v ∧
       c_bonds v = [Bond.mk 0 1 "single"] ∧
       length (c_atoms v) = 3%nat ∧
       rc_start_idx <$> c_residues v = [0; 2] ∧
       c_chains v = ["A"%string].
Proof. eexists. split; [by vm_compute|]. by vm_compute. Qed.

(** A connectivity record naming serial 9999, which no atom has. *)
Example scenario_unknown_serial :
  example_load (example_lines ++ [ConnectLine 1 [9999]]) = FormatError 5.
Proof. by vm_compute. Qed.

(** A record with a field that cannot be read. *)
Example scenario_malformed_record :
  example_load (MalformedLine :: example_lines) = FormatError 1.
Proof. by vm_compute. Qed.

(** No atom records at all: a degenerate but valid structure. *)
Example scenario_empty_input :
  example_load [] = Loaded (mk_contents "" [] [] [] []).
Proof. by vm_compute. Qed.

(** An explicit bond is kept as it is and not inferred again. *)
Example scenario_explicit_bond :
  c_bonds example_loaded = [Bond.mk 1 2 "single"; Bond.mk 0 1 "single"].
Proof. by vm_compute. Qed.

(** ** The pipeline: what the design document states *)



(** C5.  For every structure produced from valid input, the number of
    atoms is the sum over the residues of their numbers of atoms, and
    every atom of the atom sequence lies in exactly one residue: at its
    index there is one residue that holds it, and no other residue covers
    that index. *)
Theorem loaded_atoms_partitioned_into_residues
    (radius : string → float) (tolerance min_distance : float)
    (lines : list line) (v : contents) :
  load_lines radius tolerance min_distance lines = Loaded v →
  length (c_atoms v)
  = sum_list ((λ residue, length (rc_atoms residue)) <$> c_residues v) ∧
  ∀ i atom, c_atoms v !! i = Some atom →
    ∃ k residue,
      c_residues v !! k = Some residue ∧
      residue_holds residue i atom ∧
      ∀ k' residue' atom',
        c_residues v !! k' = Some residue' →
        residue_holds residue' i atom' → k' = k.
Proof.
  unfold load_lines.
  destruct (parse lines) as [[[title atoms] explicit]|]; [|done].
  intros [= <-]. simpl. split.
  - rewrite <- length_flat. by rewrite group_residues_flat.
  - intros i atom Hi.
    apply (consecutive_holds (group_residues atoms) 0 i atom).
    + apply group_residues_consecutive.
    + by rewrite group_residues_flat.
Qed.

Lemma loaded_atoms_partitioned_into_residues_witness :
  length (c_atoms example_loaded)
  = sum_list ((λ residue, length (rc_atoms residue))
                <$> c_residues example_loaded) ∧
  ∀ i atom, c_atoms example_loaded !! i = Some atom →
    ∃ k residue,
      c_residues example_loaded !! k = Some residue ∧
      residue_holds residue i atom ∧
      ∀ k' residue' atom',
        c_residues example_loaded !! k' = Some residue' →
        residue_holds residue' i atom' → k' = k.
Proof.
  apply (loaded_atoms_partitioned_into_residues example_radius
           example_tolerance example_min_distance example_lines_connect
           example_loaded).
  vm_compute. reflexivity.
Defined.

(** C6.  For every loaded structure the PicoGL export succeeds, and in its
    atoms group and in its bonds group [len(positions) == 3 * count] and
    [colors] has as many entries as [positions]; so the arrays
    [create_molecular_mesh_data] concatenates are equally long, three
    floats for each of the [atoms.count + bonds.count] vertices. *)
Theorem picogl_export_aligned
    (radius : string → float) (tolerance min_distance : float)
    (element_color bond_color : string → rgb)
    (lines : list line) (v : contents) :
  load_lines radius tolerance min_distance lines = Loaded v →
  ∃ d, to_picogl_data element_color bond_color v = Some d ∧
    length (positions (pg_atoms d)) = (3 * count (pg_atoms d))%nat ∧
    length (positions (pg_bonds d)) = (3 * count (pg_bonds d))%nat ∧
    length (colors (pg_atoms d)) = length (positions (pg_atoms d)) ∧
    length (colors (pg_bonds d)) = length (positions (pg_bonds d)) ∧
    length (vertices (create_molecular_mesh_data d))
    = (3 * (count (pg_atoms d) + count (pg_bonds d)))%nat ∧
    length (mesh_colors (create_molecular_mesh_data d))
    = length (vertices (create_molecular_mesh_data d)) ∧
    logged_vertices (create_molecular_mesh_data d)
    = Z.of_nat (count (pg_atoms d) + count (pg_bonds d)).
Proof.
  intros Hok%load_lines_bonds_ok.
  destruct (to_picogl_data_Some element_color bond_color v Hok) as [d Hd].
  exists d. split; [done|].
  destruct (to_picogl_data_aligned _ _ _ _ Hd) as (_ & _ & Hpa & Hca & Hpb & Hcb).
  repeat (split; [done|]).
  unfold create_molecular_mesh_data. simpl. rewrite !length_app.
  split; [lia|]. split; [lia|].
  rewrite Hpa, Hpb.
  replace (Z.of_nat (3 * count (pg_atoms d) + 3 * count (pg_bonds d)))
    with (Z.of_nat (count (pg_atoms d) + count (pg_bonds d)) * 3) by lia.
  by rewrite Z.div_mul.
Qed.

Lemma picogl_export_aligned_witness :
  ∃ d, to_picogl_data example_element_color example_bond_color example_loaded
       = Some d ∧
    length (positions (pg_atoms d)) = (3 * count (pg_atoms d))%nat ∧
    length (positions (pg_bonds d)) = (3 * count (pg_bonds d))%nat ∧
    length (colors (pg_atoms d)) = length (positions (pg_atoms d)) ∧
    length (colors (pg_bonds d)) = length (positions (pg_bonds d)) ∧
    length (vertices (create_molecular_mesh_data d))
    = (3 * (count (pg_atoms d) + count (pg_bonds d)))%nat ∧
    length (mesh_colors (create_molecular_mesh_data d))
    = length (vertices (create_molecular_mesh_data d)) ∧
    logged_vertices (create_molecular_mesh_data d)
    = Z.of_nat (count (pg_atoms d) + count (pg_bonds d)).
Proof.
  apply (picogl_export_aligned example_radius example_tolerance
           example_min_distance example_element_color example_bond_color
           example_lines_connect example_loaded).
  vm_compute. reflexivity.
Defined.

(** ** JSON text *)


Section strings.
Lemma escape_char_output c :
  Forall (λ c, is_output_char c = true) (escape_char c).
Proof. destruct c as [[] [] [] [] [] [] [] []]; by repeat constructor. Qed.

Lemma scan_string_escape_char c s :
  scan_string (escape_char c ++ s) = cons_fst c (scan_string s).
Proof. by destruct c as [[] [] [] [] [] [] [] []]. Qed.

Lemma scan_string_escaped (s rest : text) :
  scan_string (concat (escape_char <$> s) ++ "034"%char :: rest) = Some (s, rest).
Proof.
  induction s as [|c s IH]; [done|].
  rewrite fmap_cons. cbn [concat].
  rewrite <- app_assoc, scan_string_escape_char, IH. done.
Qed.
End strings.

Section integers.
Lemma string_of_uint_digits d :
  Forall (λ c, is_digit c = true) (chars (NilEmpty.string_of_uint d)).
Proof. induction d; simpl; constructor; done. Qed.

Lemma to_uint_nonnil p : Pos.to_uint p ≠ Decimal.Nil.
Proof.
  intros H. pose proof (DecimalPos.Unsigned.of_to p) as E.
  rewrite H in E. discriminate.
Qed.

Lemma span_digits_app ds rest :
  Forall (λ c, is_digit c = true) ds → delimited rest →
  span_digits (ds ++ rest) = (ds, rest).
Proof.
  intros Hds Hrest. induction Hds as [|c ds Hc _ IH]; simpl.
  - destruct rest as [|c rest]; simpl in *; [done|]. by rewrite Hrest.
  - by rewrite Hc, IH.
Qed.

(** The text of an integer: a sign, or none, and at least one digit. *)
Lemma int_repr_shape n :
  ∃ sign ds,
    int_repr n = sign ++ ds ∧
    (sign = [] ∨ sign = ["-"%char]) ∧
    ds ≠ [] ∧ Forall (λ c, is_digit c = true) ds.
Proof.
  unfold int_repr. destruct n as [|p|p]; simpl.
  - exists [], ["0"%char]. repeat split; [by left|done|by repeat constructor].
  - exists [], (chars (NilEmpty.string_of_uint (Pos.to_uint p))).
    repeat split; [by left| |apply string_of_uint_digits].
    pose proof (to_uint_nonnil p). by destruct (Pos.to_uint p).
  - exists ["-"%char], (chars (NilEmpty.string_of_uint (Pos.to_uint p))).
    repeat split; [by right| |apply string_of_uint_digits].
    pose proof (to_uint_nonnil p). by destruct (Pos.to_uint p).
Qed.

Lemma scan_int_repr n rest :
  delimited rest → scan_int (int_repr n ++ rest) = Some (n, rest).
Proof.
  intros Hrest.
  destruct (int_repr_shape n) as (sign & ds & Hn & Hsign & Hne & Hds).
  assert (NilEmpty.int_of_string (string_of_list_ascii (sign ++ ds))
          = Some (Z.to_int n)) as Hparse.
  { rewrite <- Hn. unfold int_repr, chars.
    rewrite string_of_list_ascii_of_string. apply NilEmpty.isi. }
  rewrite Hn. unfold scan_int.
  destruct ds as [|d ds]; [done|].
  assert (Ascii.eqb d "-"%char = false) as Hd.
  { inversion Hds as [|? ? Hdig _]; subst.
    destruct (Ascii.eqb_spec d "-"%char) as [->|]; done. }
  destruct Hsign as [-> | ->]; cbn [app] in *.
  - cbv iota beta. rewrite Hd.
    change (d :: ds ++ rest) with ((d :: ds) ++ rest).
    rewrite (span_digits_app (d :: ds) rest Hds Hrest).
    cbn [app]. rewrite Hparse. by rewrite DecimalZ.of_to.
  - cbv iota beta. change ("-" =? "-")%char with true. cbv iota.
    change (d :: ds ++ rest) with ((d :: ds) ++ rest).
    rewrite (span_digits_app (d :: ds) rest Hds Hrest).
    cbn [app]. rewrite Hparse. by rewrite DecimalZ.of_to.
Qed.

Lemma int_repr_output n : Forall (λ c, is_output_char c = true) (int_repr n).
Proof.
  destruct (int_repr_shape n) as (sign & ds & -> & Hsign & _ & Hds).
  apply Forall_app. split.
  - destruct Hsign as [-> | ->]; by repeat constructor.
  - eapply Forall_impl; [exact Hds|]. intros c. unfold is_digit, is_output_char.
    intros [H1 H2]%andb_true_iff. apply N.leb_le in H1, H2.
    apply orb_true_iff. right. apply andb_true_iff.
    split; apply N.leb_le; lia.
Qed.
End integers.

Section reading.
Variable indent : nat.

Lemma sum_list_fmap_cons {A} (f : A → nat) (x : A) (l : list A) :
  sum_list (f <$> x :: l) = (f x + sum_list (f <$> l))%nat.
Proof. done. Qed.

Lemma join_fmap_cons_cons {A} (sep : text) (f : A → text) (x y : A) (l : list A) :
  join sep (f <$> x :: y :: l) = f x ++ sep ++ join sep (f <$> y :: l).
Proof. done. Qed.

Lemma skip_whitespace_replicate n s :
  skip_whitespace (replicate n " "%char ++ s) = skip_whitespace s.
Proof. induction n as [|n IH]; [done|]. simpl. exact IH. Qed.

Lemma skip_whitespace_newline_indent level s :
  skip_whitespace (newline_indent indent level ++ s) = skip_whitespace s.
Proof. unfold newline_indent. simpl. apply skip_whitespace_replicate. Qed.

Lemma skip_whitespace_starts_value s : starts_value s → skip_whitespace s = s.
Proof. destruct s as [|c s]; [done|]. simpl. by intros [-> _]. Qed.

Lemma delimited_newline_indent level s :
  delimited (newline_indent indent level ++ s).
Proof. done. Qed.

Lemma strip_prefix_app p s : strip_prefix p (p ++ s) = Some s.
Proof.
  unfold strip_prefix. rewrite take_app_length, drop_app_length.
  by rewrite bool_decide_eq_true_2.
Qed.

Lemma digit_or_minus_plain c :
  is_digit c = true ∨ c = "-"%char →
  is_whitespace c = false ∧
  Ascii.eqb c "034"%char = false ∧ Ascii.eqb c "["%char = false ∧
  Ascii.eqb c "{"%char = false ∧ Ascii.eqb c "n"%char = false ∧
  Ascii.eqb c "t"%char = false ∧ Ascii.eqb c "f"%char = false ∧
  Ascii.eqb c "]"%char = false ∧ Ascii.eqb c "}"%char = false.
Proof.
  intros [H| ->]; [|done].
  destruct c as [[] [] [] [] [] [] [] []]; try discriminate H; done.
Qed.

Lemma int_repr_head n :
  ∃ c t, int_repr n = c :: t ∧ (is_digit c = true ∨ c = "-"%char).
Proof.
  destruct (int_repr_shape n) as (sign & ds & -> & Hsign & Hne & Hds).
  destruct Hsign as [-> | ->].
  - destruct ds as [|d ds]; [done|]. exists d, ds. split; [done|].
    left. by inversion Hds.
  - eexists _, _. split; [done|]. by right.
Qed.

Lemma iterencode_starts_value level v rest :
  starts_value (iterencode indent level v ++ rest).
Proof.
  destruct v as [|[]|n|s|[|x items]|[|m members]]; try done.
  destruct (int_repr_head n) as (c & t & E & Hc). simpl. rewrite E. simpl.
  apply digit_or_minus_plain in Hc. tauto.
Qed.

Lemma parse_items_join items fuel fuel' level rest :
  items ≠ [] →
  Forall (reads_back indent) items →
  (sum_list (weight <$> items) ≤ fuel)%nat →
  (length items ≤ fuel')%nat →
  parse_items (parse_value fuel) fuel'
    (join (item_separator ++ newline_indent indent (S level))
       (iterencode indent (S level) <$> items)
     ++ newline_indent indent level ++ "]"%char :: rest)
  = Some (items, rest).
Proof.
  intros Hne Hall. revert fuel' Hne.
  induction Hall as [|x items Hx Hitems IH]; intros fuel' Hne Hw Hlen; [done|].
  destruct fuel' as [|fuel']; [simpl in Hlen; lia|].
  rewrite sum_list_fmap_cons in Hw.
  assert (weight x ≤ fuel ∧ sum_list (weight <$> items) ≤ fuel)%nat
    as [Hwx Hwr] by lia.
  destruct items as [|y items].
  - cbn [fmap list_fmap join parse_items].
    rewrite Hx; [|done|apply delimited_newline_indent].
    rewrite skip_whitespace_newline_indent. done.
  - rewrite join_fmap_cons_cons.
    rewrite <- !app_assoc. cbn [parse_items].
    rewrite Hx; [|done|done].
    change (skip_whitespace (item_separator ++ ?t)) with (","%char :: t).
    change ("," =? ",")%char with true. cbv iota.
    rewrite skip_whitespace_newline_indent.
    rewrite skip_whitespace_starts_value.
    2:{ rewrite fmap_cons.
        destruct items; cbn [join fmap list_fmap]; rewrite <- ?app_assoc;
          apply iterencode_starts_value. }
    rewrite IH; [done|done|done|simpl in *; lia].
Qed.

Lemma scan_string_key (k : string) (rest : text) :
  ∃ t, encode_basestring_ascii k ++ rest = "034"%char :: t ∧
       scan_string t = Some (chars k, rest).
Proof.
  exists (concat (escape_char <$> chars k) ++ "034"%char :: rest). split.
  - unfold encode_basestring_ascii. simpl. by rewrite <- app_assoc.
  - apply scan_string_escaped.
Qed.

(** Reading one member, up to what follows its value. *)
Lemma parse_members_head k x fuel fuel' level t :
  reads_back indent x → (weight x ≤ fuel)%nat → delimited t →
  parse_members (parse_value fuel) (S fuel')
    (encode_basestring_ascii k ++ key_separator
     ++ iterencode indent level x ++ t)
  = match skip_whitespace t with
    | d :: r4 =>
        if Ascii.eqb d ","%char then
          match parse_members (parse_value fuel) fuel' (skip_whitespace r4) with
          | Some (ms, r5) => Some ((k, x) :: ms, r5)
          | None => None
          end
        else if Ascii.eqb d "}"%char then Some ([(k, x)], r4)
        else None
    | [] => None
    end.
Proof.
  intros Hx Hw Ht.
  destruct (scan_string_key k (key_separator ++ iterencode indent level x ++ t))
    as (body & -> & Hscan).
  cbn [parse_members]. change ("034" =? "034")%char with true. cbv iota.
  rewrite Hscan.
  change (skip_whitespace (key_separator ++ ?u))
    with (":"%char :: " "%char :: u).
  change (":" =? ":")%char with true. cbv iota.
  change (skip_whitespace (" "%char :: ?u)) with (skip_whitespace u).
  rewrite skip_whitespace_starts_value by apply iterencode_starts_value.
  unfold chars. rewrite string_of_list_ascii_of_string.
  rewrite Hx; done.
Qed.

Lemma parse_members_join members fuel fuel' level rest :
  members ≠ [] →
  Forall (λ kv, reads_back indent kv.2) members →
  (sum_list ((λ kv, weight kv.2) <$> members) ≤ fuel)%nat →
  (length members ≤ fuel')%nat →
  parse_members (parse_value fuel) fuel'
    (join (item_separator ++ newline_indent indent (S level))
       ((λ kv, encode_basestring_ascii kv.1 ++ key_separator
               ++ iterencode indent (S level) kv.2) <$> members)
     ++ newline_indent indent level ++ "}"%char :: rest)
  = Some (members, rest).
Proof.
  intros Hne Hall. revert fuel' Hne.
  induction Hall as [|[k x] members Hx Hmembers IH];
    intros fuel' Hne Hw Hlen; [done|].
  destruct fuel' as [|fuel']; [simpl in Hlen; lia|].
  rewrite sum_list_fmap_cons in Hw. cbn [snd] in Hw, Hx.
  assert (weight x ≤ fuel ∧
          sum_list ((λ kv, weight kv.2) <$> members) ≤ fuel)%nat
    as [Hwx Hwr] by lia.
  destruct members as [|[k' y] members].
  - cbn [fmap list_fmap join fst snd]. rewrite <- !app_assoc.
    rewrite parse_members_head by done.
    rewrite skip_whitespace_newline_indent. done.
  - rewrite join_fmap_cons_cons. cbv beta.
    cbn [fst snd]. rewrite <- !app_assoc.
    rewrite parse_members_head by done.
    change (skip_whitespace (item_separator ++ ?t)) with (","%char :: t).
    change ("," =? ",")%char with true. cbv iota.
    rewrite skip_whitespace_newline_indent.
    rewrite skip_whitespace_starts_value.
    2:{ rewrite fmap_cons.
        destruct members; cbn [join fmap list_fmap]; rewrite <- ?app_assoc;
          done. }
    rewrite IH; [done|done|done|simpl in *; lia].
Qed.

Lemma parse_value_iterencode v : reads_back indent v.
Proof.
  induction v as [|b|n|s|items IH|members IH] using json_ind;
    intros fuel level rest Hw Hrest;
    (destruct fuel as [|fuel]; [simpl in Hw; lia|]).
  - done.
  - by destruct b.
  - destruct (int_repr_head n) as (c & t & E & Hc).
    pose proof (scan_int_repr n rest Hrest) as Hscan.
    cbn [iterencode] in *. rewrite E in *. cbn [app parse_value] in *.
    apply digit_or_minus_plain in Hc
      as (_ & -> & -> & -> & -> & -> & -> & _).
    by rewrite Hscan.
  - destruct (scan_string_key s rest) as (t & E & Hscan).
    cbn [iterencode]. rewrite E. cbn [parse_value].
    change ("034" =? "034")%char with true. cbv iota. rewrite Hscan.
    unfold chars. by rewrite string_of_list_ascii_of_string.
  - destruct items as [|x items]; [done|].
    cbn [weight] in Hw.
    set (xs := x :: items) in *.
    assert (iterencode indent level (JList xs)
            = "["%char :: newline_indent indent (S level)
              ++ join (item_separator ++ newline_indent indent (S level))
                   (iterencode indent (S level) <$> xs)
              ++ newline_indent indent level ++ ["]"%char]) as -> by done.
    cbn [app parse_value]. change ("[" =? "034")%char with false.
    change ("[" =? "[")%char with true. cbv iota.
    rewrite <- !app_assoc, skip_whitespace_newline_indent.
    assert (starts_value
              (join (item_separator ++ newline_indent indent (S level))
                 (iterencode indent (S level) <$> xs)
               ++ newline_indent indent level ++ ["]"%char] ++ rest)) as Hsv.
    { subst xs. rewrite fmap_cons.
      destruct items; cbn [join fmap list_fmap]; rewrite <- ?app_assoc;
        apply iterencode_starts_value. }
    rewrite skip_whitespace_starts_value by done.
    destruct (join _ _ ++ _) as [|d r] eqn:E; [done|].
    destruct Hsv as (_ & -> & _). rewrite <- E.
    change (["]"%char] ++ rest) with ("]"%char :: rest).
    rewrite (parse_items_join xs); [done|done|done|lia|].
    assert (length xs ≤ sum_list (weight <$> xs))%nat; [|lia].
    clear. induction xs as [|y ys IHys]; [done|].
    rewrite sum_list_fmap_cons. simpl.
    assert (1 ≤ weight y)%nat by (destruct y; simpl; lia). lia.
  - destruct members as [|m members]; [done|].
    cbn [weight] in Hw.
    set (ms := m :: members) in *.
    assert (iterencode indent level (JDict ms)
            = "{"%char :: newline_indent indent (S level)
              ++ join (item_separator ++ newline_indent indent (S level))
                   ((λ kv, encode_basestring_ascii kv.1 ++ key_separator
                           ++ iterencode indent (S level) kv.2) <$> ms)
              ++ newline_indent indent level ++ ["}"%char]) as -> by done.
    cbn [app parse_value]. change ("{" =? "034")%char with false.
    change ("{" =? "[")%char with false.
    change ("{" =? "{")%char with true. cbv iota.
    rewrite <- !app_assoc, skip_whitespace_newline_indent.
    assert (starts_value
              (join (item_separator ++ newline_indent indent (S level))
                 ((λ kv, encode_basestring_ascii kv.1 ++ key_separator
                         ++ iterencode indent (S level) kv.2) <$> ms)
               ++ newline_indent indent level ++ ["}"%char] ++ rest)) as Hsv.
    { subst ms. rewrite fmap_cons.
      destruct members; cbn [join fmap list_fmap]; rewrite <- ?app_assoc;
        done. }
    rewrite skip_whitespace_starts_value by done.
    destruct (join _ _ ++ _) as [|d r] eqn:E; [done|].
    destruct Hsv as (_ & _ & ->). rewrite <- E.
    change (["}"%char] ++ rest) with ("}"%char :: rest).
    rewrite (parse_members_join ms); [done|done|done|lia|].
    assert (length ms ≤ sum_list ((λ kv, weight kv.2) <$> ms))%nat; [|lia].
    clear. induction ms as [|y ys IHys]; [done|].
    rewrite sum_list_fmap_cons. simpl.
    assert (1 ≤ weight y.2)%nat by (destruct y.2; simpl; lia). lia.
Qed.
End reading.

Section output.
Variable indent : nat.

Lemma Forall_join (P : ascii → Prop) (sep : text) (parts : list text) :
  Forall P sep → Forall (Forall P) parts → Forall P (join sep parts).
Proof.
  intros Hsep. induction 1 as [|p parts Hp Hparts IH]; [done|].
  destruct parts as [|q parts]; [done|].
  change (join sep (p :: q :: parts)) with (p ++ sep ++ join sep (q :: parts)).
  by rewrite !Forall_app.
Qed.

Lemma sum_list_fmap_le {A} (f g : A → nat) (l : list A) :
  Forall (λ x, f x ≤ g x)%nat l →
  (sum_list (f <$> l) ≤ sum_list (g <$> l))%nat.
Proof.
  induction 1 as [|x l Hx _ IH]; [done|].
  rewrite !sum_list_fmap_cons. lia.
Qed.

Lemma length_join (sep : text) (parts : list text) :
  (sum_list (length <$> parts) ≤ length (join sep parts))%nat.
Proof.
  induction parts as [|p parts IH]; [done|].
  destruct parts as [|q parts]; [simpl; lia|].
  change (join sep (p :: q :: parts)) with (p ++ sep ++ join sep (q :: parts)).
  rewrite sum_list_fmap_cons, !length_app. lia.
Qed.

Lemma newline_indent_output level :
  Forall (λ c, is_output_char c = true) (newline_indent indent level).
Proof.
  unfold newline_indent. constructor; [done|].
  apply Forall_replicate. done.
Qed.

Lemma encode_basestring_ascii_output s :
  Forall (λ c, is_output_char c = true) (encode_basestring_ascii s).
Proof.
  unfold encode_basestring_ascii. constructor; [done|].
  apply Forall_app. split; [|by repeat constructor].
  apply Forall_concat, Forall_fmap, Forall_true. intros c.
  apply escape_char_output.
Qed.

(** Whatever the document, [json.dump] emits line feeds and printable
    ASCII only. *)
Lemma iterencode_output level v :
  Forall (λ c, is_output_char c = true) (iterencode indent level v).
Proof.
  revert level.
  induction v as [|b|n|s|items IH|members IH] using json_ind; intros level.
  - by repeat constructor.
  - destruct b; by repeat constructor.
  - apply int_repr_output.
  - apply encode_basestring_ascii_output.
  - destruct items as [|x items]; [by repeat constructor|].
    set (xs := x :: items) in *.
    change (Forall (λ c, is_output_char c = true)
              (chars "[" ++ newline_indent indent (S level)
               ++ join (item_separator ++ newline_indent indent (S level))
                    (iterencode indent (S level) <$> xs)
               ++ newline_indent indent level ++ chars "]")).
    rewrite !Forall_app. repeat split;
      try apply newline_indent_output; try by repeat constructor.
    apply Forall_join.
    + apply Forall_app. split; [by repeat constructor|].
      apply newline_indent_output.
    + apply Forall_fmap. eapply Forall_impl; [exact IH|]. intros v Hv. apply Hv.
  - destruct members as [|m members]; [by repeat constructor|].
    set (ms := m :: members) in *.
    change (Forall (λ c, is_output_char c = true)
              (chars "{" ++ newline_indent indent (S level)
               ++ join (item_separator ++ newline_indent indent (S level))
                    ((λ kv, encode_basestring_ascii kv.1 ++ key_separator
                            ++ iterencode indent (S level) kv.2) <$> ms)
               ++ newline_indent indent level ++ chars "}")).
    rewrite !Forall_app. repeat split;
      try apply newline_indent_output; try by repeat constructor.
    apply Forall_join.
    + apply Forall_app. split; [by repeat constructor|].
      apply newline_indent_output.
    + apply Forall_fmap. eapply Forall_impl; [exact IH|]. intros kv Hv.
      unfold compose. rewrite !Forall_app. repeat split.
      * apply encode_basestring_ascii_output.
      * by repeat constructor.
      * apply Hv.
Qed.

Lemma weight_le_length level v :
  (weight v ≤ length (iterencode indent level v))%nat.
Proof.
  revert level.
  induction v as [|b|n|s|items IH|members IH] using json_ind; intros level.
  - simpl. lia.
  - destruct b; simpl; lia.
  - destruct (int_repr_head n) as (c & t & E & _). simpl. rewrite E. simpl. lia.
  - simpl. lia.
  - destruct items as [|x items]; [simpl; lia|].
    set (xs := x :: items) in *.
    change (iterencode indent level (JList xs))
      with (chars "[" ++ newline_indent indent (S level)
            ++ join (item_separator ++ newline_indent indent (S level))
                 (iterencode indent (S level) <$> xs)
            ++ newline_indent indent level ++ chars "]").
    rewrite !length_app. cbn [weight].
    pose proof (length_join (item_separator ++ newline_indent indent (S level))
                  (iterencode indent (S level) <$> xs)) as Hj.
    assert (sum_list (weight <$> xs)
            ≤ sum_list (length <$> (iterencode indent (S level) <$> xs)))%nat.
    { rewrite <- list_fmap_compose. apply sum_list_fmap_le.
      eapply Forall_impl; [exact IH|]. intros v Hv. apply Hv. }
    assert (1 ≤ length (chars "["))%nat by (simpl; lia). lia.
  - destruct members as [|m members]; [simpl; lia|].
    set (ms := m :: members) in *.
    change (iterencode indent level (JDict ms))
      with (chars "{" ++ newline_indent indent (S level)
            ++ join (item_separator ++ newline_indent indent (S level))
                 ((λ kv, encode_basestring_ascii kv.1 ++ key_separator
                         ++ iterencode indent (S level) kv.2) <$> ms)
            ++ newline_indent indent level ++ chars "}").
    rewrite !length_app. cbn [weight].
    pose proof (length_join (item_separator ++ newline_indent indent (S level))
                  ((λ kv, encode_basestring_ascii kv.1 ++ key_separator
                         ++ iterencode indent (S level) kv.2) <$> ms)) as Hj.
    assert (sum_list ((λ kv, weight kv.2) <$> ms)
            ≤ sum_list (length <$>
                ((λ kv, encode_basestring_ascii kv.1 ++ key_separator
                        ++ iterencode indent (S level) kv.2) <$> ms)))%nat.
    { rewrite <- list_fmap_compose. apply sum_list_fmap_le.
      eapply Forall_impl; [exact IH|]. intros kv Hv. unfold compose.
      rewrite !length_app. specialize (Hv (S level)). lia. }
    assert (1 ≤ length (chars "{"))%nat by (simpl; lia). lia.
Qed.
End output.

(** Reading back what [json.dump] wrote gives the document. *)
Lemma json_loads_json_dump v : json_loads (json_dump v) = Some v.
Proof.
  unfold json_loads, json_dump.
  pose proof (iterencode_starts_value 2 0%nat v []) as Hsv.
  rewrite app_nil_r in Hsv. rewrite skip_whitespace_starts_value by done.
  pose proof (parse_value_iterencode 2 v (S (length (iterencode 2 0 v))) 0%nat [])
    as Hread.
  rewrite app_nil_r in Hread. rewrite Hread; [done| |done].
  pose proof (weight_le_length 2 0%nat v). lia.
Qed.

Section files.
Lemma is_output_char_ascii c : is_output_char c = true → (code c < 128)%N.
Proof.
  unfold is_output_char. intros [H|[_ H]%andb_true_iff]%orb_true_iff.
  - apply Ascii.eqb_eq in H as ->. done.
  - apply N.leb_le in H. lia.
Qed.

Lemma is_output_char_not_CR c : is_output_char c = true → c ≠ CR.
Proof. by intros H ->. Qed.

Lemma utf8_encode_ascii s :
  Forall (λ c, (code c < 128)%N) s → utf8_encode s = byte_of_ascii <$> s.
Proof.
  induction 1 as [|c s Hc _ IH]; [done|].
  unfold utf8_encode in *. cbn [mbind list_bind]. rewrite IH.
  unfold utf8_encode_char. apply N.ltb_lt in Hc. by rewrite Hc.
Qed.

Lemma translate_newlines_ascii linesep s :
  Forall (λ c, (code c < 128)%N) linesep →
  Forall (λ c, (code c < 128)%N) s →
  Forall (λ c, (code c < 128)%N) (translate_newlines linesep s).
Proof.
  intros Hsep. induction 1 as [|c s Hc _ IH]; [done|].
  unfold translate_newlines in *. cbn [mbind list_bind].
  apply Forall_app. split; [|done].
  destruct (Ascii.eqb c LF); [done|by constructor].
Qed.

Lemma universal_newlines_translate linesep s :
  linesep = [LF] ∨ linesep = [CR; LF] →
  Forall (λ c, c ≠ CR) s →
  universal_newlines (translate_newlines linesep s) = s.
Proof.
  intros Hsep. induction 1 as [|c s Hc _ IH]; [done|].
  unfold translate_newlines in *. cbn [mbind list_bind].
  destruct (Ascii.eqb_spec c LF) as [->|Hne].
  - destruct Hsep as [-> | ->]; simpl; by rewrite IH.
  - simpl. apply Ascii.eqb_neq in Hc. rewrite Hc, IH. done.
Qed.
End files.

Section layout.
Variable indent : nat.

Lemma join_app (sep : text) (ps qs : list text) :
  ps ≠ [] → qs ≠ [] →
  join sep (ps ++ qs) = join sep ps ++ sep ++ join sep qs.
Proof.
  intros Hps Hqs. induction ps as [|p ps IH]; [done|].
  destruct ps as [|p' ps].
  - destruct qs; done.
  - change (join sep ((p :: p' :: ps) ++ qs))
      with (p ++ sep ++ join sep ((p' :: ps) ++ qs)).
    rewrite IH by done.
    change (join sep (p :: p' :: ps)) with (p ++ sep ++ join sep (p' :: ps)).
    by rewrite <- !app_assoc.
Qed.

Lemma render_app ls ls' :
  ls ≠ [] → ls' ≠ [] →
  render indent (ls ++ ls') = render indent ls ++ [LF] ++ render indent ls'.
Proof.
  intros H H'. unfold render. rewrite fmap_app. apply join_app.
  - by destruct ls.
  - by destruct ls'.
Qed.

Lemma pretty_lines_nonempty depth prefix v suffix :
  pretty_lines depth prefix v suffix ≠ [].
Proof. by destruct v as [|[]| | |[]|[]]. Qed.

Lemma render_one depth l :
  render indent [(depth, l)] = replicate (indent * depth) " "%char ++ l.
Proof. done. Qed.

Lemma render_cons depth l ls :
  ls ≠ [] →
  render indent ((depth, l) :: ls)
  = replicate (indent * depth) " "%char ++ l ++ [LF] ++ render indent ls.
Proof.
  intros Hls. change ((depth, l) :: ls) with ([(depth, l)] ++ ls).
  rewrite render_app by done. rewrite render_one. by rewrite <- app_assoc.
Qed.

(** The items of a container, rendered: the texts of the items at the
    deeper level, a comma and a line break between them. *)
Lemma render_separated_lines {A} (lines_of : A → text → list (nat * text))
    (text_of : A → text) (depth : nat) (l : list A) :
  l ≠ [] →
  Forall (λ x, ∀ suffix,
            lines_of x suffix ≠ [] ∧
            render indent (lines_of x suffix)
            = replicate (indent * depth) " "%char ++ text_of x ++ suffix) l →
  separated_lines lines_of l ≠ [] ∧
  render indent (separated_lines lines_of l)
  = replicate (indent * depth) " "%char
    ++ join (item_separator ++ newline_indent indent depth) (text_of <$> l).
Proof.
  intros Hne Hall. induction Hall as [|x l Hx Hl IH]; [done|].
  destruct l as [|y l].
  - destruct (Hx []) as [Hnonempty Hrender]. cbn [separated_lines].
    split; [done|]. rewrite Hrender. by rewrite app_nil_r.
  - destruct (Hx (chars ",")) as [Hnonempty Hrender].
    destruct IH as [IHne IHrender]; [done|].
    change (separated_lines lines_of (x :: y :: l))
      with (lines_of x (chars ",") ++ separated_lines lines_of (y :: l)).
    split; [by destruct (lines_of x (chars ","))|].
    rewrite render_app by done. rewrite Hrender, IHrender.
    rewrite join_fmap_cons_cons. unfold newline_indent, item_separator.
    rewrite <- !app_assoc. done.
Qed.

Lemma render_pretty_lines v : laid_out indent v.
Proof.
  induction v as [|b|n|s|items IH|members IH] using json_ind;
    intros depth prefix suffix.
  - apply render_one.
  - destruct b; apply render_one.
  - apply render_one.
  - apply render_one.
  - destruct items as [|x items]; [apply render_one|].
    set (xs := x :: items) in *.
    destruct (render_separated_lines
                (λ x, pretty_lines (S depth) [] x)
                (iterencode indent (S depth)) (S depth) xs) as [Hne Hr];
      [done| |].
    { eapply Forall_impl; [exact IH|]. intros v Hv sfx.
      split; [apply pretty_lines_nonempty|]. apply Hv. }
    change (pretty_lines depth prefix (JList xs) suffix)
      with ((depth, prefix ++ chars "[")
            :: separated_lines (λ x, pretty_lines (S depth) [] x) xs
            ++ [(depth, chars "]" ++ suffix)]).
    rewrite render_cons by (by destruct (separated_lines _ xs)).
    rewrite render_app by done. rewrite Hr, render_one.
    change (iterencode indent depth (JList xs))
      with (chars "[" ++ newline_indent indent (S depth)
            ++ join (item_separator ++ newline_indent indent (S depth))
                 (iterencode indent (S depth) <$> xs)
            ++ newline_indent indent depth ++ chars "]").
    unfold newline_indent. rewrite <- !app_assoc. done.
  - destruct members as [|m members]; [apply render_one|].
    set (ms := m :: members) in *.
    destruct (render_separated_lines
                (λ kv, pretty_lines (S depth)
                         (encode_basestring_ascii kv.1 ++ chars ": ") kv.2)
                (λ kv, encode_basestring_ascii kv.1 ++ key_separator
                       ++ iterencode indent (S depth) kv.2)
                (S depth) ms) as [Hne Hr]; [done| |].
    { eapply Forall_impl; [exact IH|]. intros kv Hv sfx.
      split; [apply pretty_lines_nonempty|]. rewrite Hv.
      unfold key_separator. by rewrite <- !app_assoc. }
    change (pretty_lines depth prefix (JDict ms) suffix)
      with ((depth, prefix ++ chars "{")
            :: separated_lines
                 (λ kv, pretty_lines (S depth)
                          (encode_basestring_ascii kv.1 ++ chars ": ") kv.2)
                 ms
            ++ [(depth, chars "}" ++ suffix)]).
    rewrite render_cons by (by destruct (separated_lines _ ms)).
    rewrite render_app by done. rewrite Hr, render_one.
    change (iterencode indent depth (JDict ms))
      with (chars "{" ++ newline_indent indent (S depth)
            ++ join (item_separator ++ newline_indent indent (S depth))
                 ((λ kv, encode_basestring_ascii kv.1 ++ key_separator
                         ++ iterencode indent (S depth) kv.2) <$> ms)
            ++ newline_indent indent depth ++ chars "}").
    unfold newline_indent. rewrite <- !app_assoc. done.
Qed.
End layout.

Section lines.
Local Abbreviation printable l := (Forall (λ c, is_printable c = true) l).

Lemma escape_char_printable c : printable (escape_char c).
Proof. destruct c as [[] [] [] [] [] [] [] []]; by repeat constructor. Qed.

Lemma encode_basestring_ascii_printable s :
  printable (encode_basestring_ascii s).
Proof.
  unfold encode_basestring_ascii. constructor; [done|].
  apply Forall_app. split; [|by repeat constructor].
  apply Forall_concat, Forall_fmap, Forall_true. intros c.
  apply escape_char_printable.
Qed.

Lemma int_repr_printable n : printable (int_repr n).
Proof.
  destruct (int_repr_shape n) as (sign & ds & -> & Hsign & _ & Hds).
  apply Forall_app. split.
  - destruct Hsign as [-> | ->]; by repeat constructor.
  - eapply Forall_impl; [exact Hds|]. intros c. unfold is_digit, is_printable.
    intros [H1 H2]%andb_true_iff. apply N.leb_le in H1, H2.
    apply andb_true_iff. split; apply N.leb_le; lia.
Qed.

Lemma line_content_app prefix token suffix :
  well_started prefix → printable prefix → printable token →
  printable suffix →
  match token with c :: _ => c ≠ " "%char | [] => False end →
  line_content (prefix ++ token ++ suffix).
Proof.
  intros Hstart Hp Ht Hs Hhead. split.
  - by rewrite !Forall_app.
  - destruct prefix as [|c prefix]; [|done]. by destruct token.
Qed.

Lemma separated_lines_Forall {A} (P : nat * text → Prop)
    (lines_of : A → text → list (nat * text)) (l : list A) :
  Forall (λ x, ∀ suffix, printable suffix → Forall P (lines_of x suffix)) l →
  Forall P (separated_lines lines_of l).
Proof.
  induction 1 as [|x l Hx _ IH]; [done|].
  destruct l as [|y l].
  - by apply Hx.
  - change (separated_lines lines_of (x :: y :: l))
      with (lines_of x (chars ",") ++ separated_lines lines_of (y :: l)).
    apply Forall_app. split; [|done]. apply Hx. by repeat constructor.
Qed.

(** Every line of a layout has a proper content, so a rendered line
    begins with exactly the spaces of its depth. *)
Lemma pretty_lines_content v :
  ∀ depth prefix suffix,
    well_started prefix → printable prefix → printable suffix →
    Forall (λ line, line_content line.2) (pretty_lines depth prefix v suffix).
Proof.
  induction v as [|b|n|s|items IH|members IH] using json_ind;
    intros depth prefix suffix Hstart Hp Hs.
  - constructor; [|done].
    apply line_content_app; try done. by repeat constructor.
  - destruct b; (constructor; [|done]);
      (apply line_content_app; try done; by repeat constructor).
  - constructor; [|done].
    apply line_content_app; try done; [apply int_repr_printable|].
    destruct (int_repr_head n) as (c & t & -> & Hc).
    apply digit_or_minus_plain in Hc as [Hc _]. by intros ->.
  - constructor; [|done].
    apply line_content_app; try done.
    apply encode_basestring_ascii_printable.
  - destruct items as [|x items].
    { constructor; [|done].
      apply line_content_app; try done. by repeat constructor. }
    set (xs := x :: items) in *.
    change (pretty_lines depth prefix (JList xs) suffix)
      with ((depth, prefix ++ chars "[")
            :: separated_lines (λ x, pretty_lines (S depth) [] x) xs
            ++ [(depth, chars "]" ++ suffix)]).
    constructor; [|apply Forall_app; split].
    + rewrite <- (app_nil_r (chars "[")).
      apply line_content_app; try done. by repeat constructor.
    + apply separated_lines_Forall.
      eapply Forall_impl; [exact IH|]. intros v Hv sfx Hsfx. by apply Hv.
    + constructor; [|done].
      apply (line_content_app [] (chars "]") suffix); try done.
      by repeat constructor.
  - destruct members as [|m members].
    { constructor; [|done].
      apply line_content_app; try done. by repeat constructor. }
    set (ms := m :: members) in *.
    change (pretty_lines depth prefix (JDict ms) suffix)
      with ((depth, prefix ++ chars "{")
            :: separated_lines
                 (λ kv, pretty_lines (S depth)
                          (encode_basestring_ascii kv.1 ++ chars ": ") kv.2)
                 ms
            ++ [(depth, chars "}" ++ suffix)]).
    constructor; [|apply Forall_app; split].
    + rewrite <- (app_nil_r (chars "{")).
      apply line_content_app; try done. by repeat constructor.
    + apply separated_lines_Forall.
      eapply Forall_impl; [exact IH|]. intros kv Hv sfx Hsfx.
      apply Hv; [done| |done].
      apply Forall_app. split; [|by repeat constructor].
      apply encode_basestring_ascii_printable.
    + constructor; [|done].
      apply (line_content_app [] (chars "}") suffix); try done.
      by repeat constructor.
Qed.
End lines.

(** The text [json.dump] writes for [[1, [None, True], []]] with
    [indent=2]. *)
Example json_dump_nested_list :
  string_of_list_ascii
    (json_dump (JList [JInt 1; JList [JNull; JBool true]; JList []]))
  = "[
  1,
  [
    null,
    true
  ],
  []
]"%string.
Proof. by vm_compute. Qed.

(** A character outside ASCII is written as an escape, and read back. *)
Example json_dump_escapes :
  json_dump (JStr (String "233"%char (String "010"%char "a")))
  = "034"%char :: "092"%char :: chars "u00e9"
    ++ "092"%char :: chars "na" ++ ["034"%char] ∧
  json_loads (json_dump example_document) = Some example_document.
Proof. split; by vm_compute. Qed.

(** ** Saving a document *)



(** * Further properties of the code *)

(** ** [PDBStructure] *)

Section structure_extras.
Implicit Types (h : heap) (self l : loc) (v : contents).

Lemma perform_creates h self v c :
  contents_of h self = Some v →
  creates_object (length (c_residues v)) c →
  ∃ l h' o, perform self c h = Some (l, h') ∧ h !! l = None ∧
            h' = <[l := o]> h.
Proof.
  intros Hv Hc. destruct c as [| |i]; simpl.
  - pose proof Hv as (this & r & H1 & H2 & _)%contents_of_Some.
    unfold get_atom_positions, bind, load.
    apply heap_structure_Some in H1. apply heap_atoms_Some in H2.
    rewrite H1, H2.
    destruct (alloc_spec (PyArray (np_array_float32 (position <$> c_atoms v))) h)
      as (l & h' & Ha & Hl & Hh'). eexists l, h', _. by repeat split.
  - pose proof Hv as (this & r & H1 & H2 & _)%contents_of_Some.
    unfold get_atom_elements, bind, load.
    apply heap_structure_Some in H1. apply heap_atoms_Some in H2.
    rewrite H1, H2.
    destruct (alloc_spec (PyStrList (Atom.element <$> c_atoms v)) h)
      as (l & h' & Ha & Hl & Hh'). eexists l, h', _. by repeat split.
  - pose proof Hv as (this & r & H1 & _ & _ & H4 & H5 & _)%contents_of_Some.
    pose proof (Forall2_length _ _ _ H5) as Hlen. simpl in Hc.
    apply heap_structure_Some in H1. apply heap_residues_Some in H4.
    unfold get_residue_atoms, bind, load. rewrite H1, H4.
    assert ((0 <=? i) && (i <? Z.of_nat (length r)) = false) as ->.
    { apply andb_false_iff. rewrite Z.leb_gt, Z.ltb_ge. lia. }
    destruct (alloc_spec (PyAtomList []) h) as (l & h' & Ha & Hl & Hh').
    eexists l, h', _. by repeat split.
Qed.
End structure_extras.

(** X1.  [get_atom_elements] returns, for every structure, a list with the
    element symbol of each atom, in the order of the atom sequence; its
    entry [i] and row [i] of the array of [get_atom_positions] describe
    the same atom. *)
Theorem get_atom_elements_matches_positions
    (h : heap) (self : loc) (v : contents) :
  contents_of h self = Some v →
  ∃ le h1 lp h2 elements arr,
    get_atom_elements self h = Some (le, h1) ∧
    get_atom_positions self h1 = Some (lp, h2) ∧
    heap_strs h2 le = Some elements ∧
    heap_array h2 lp = Some arr ∧
    length elements = length (c_atoms v) ∧
    ∀ i atom, c_atoms v !! i = Some atom →
      elements !! i = Some (Atom.element atom) ∧
      row arr i = to_float32 <$> position atom.
Proof.
  intros Hv.
  destruct (get_atom_elements_run h self v Hv) as (le & h1 & He & S1 & _ & Le).
  assert (contents_of h1 self = Some v) as Hv1 by (by eapply contents_of_weaken).
  destruct (get_atom_positions_run h1 self v Hv1)
    as (lp & h2 & Hp & S2 & _ & Lp).
  destruct (np_array_float32_positions (c_atoms v)) as (_ & _ & Hrow).
  exists le, h1, lp, h2, (Atom.element <$> c_atoms v),
    (np_array_float32 (position <$> c_atoms v)).
  split; [done|]. split; [done|].
  split; [apply heap_strs_Some; by eapply lookup_weaken|].
  split; [by apply heap_array_Some|].
  split; [by rewrite length_fmap|].
  intros i atom Hi. split; [by rewrite list_lookup_fmap, Hi|by apply Hrow].
Qed.

Lemma get_atom_elements_matches_positions_witness :
  ∃ le h1 lp h2 elements arr,
    get_atom_elements example_self example_heap = Some (le, h1) ∧
    get_atom_positions example_self h1 = Some (lp, h2) ∧
    heap_strs h2 le = Some elements ∧
    heap_array h2 lp = Some arr ∧
    length elements = length (c_atoms example_contents) ∧
    ∀ i atom, c_atoms example_contents !! i = Some atom →
      elements !! i = Some (Atom.element atom) ∧
      row arr i = to_float32 <$> position atom.
Proof.
  apply (get_atom_elements_matches_positions example_heap example_self
           example_contents).
  vm_compute. reflexivity.
Defined.

(** X2.  What [get_atom_positions], [get_atom_elements] and an
    out-of-range [get_residue_atoms] return is a new object each time: it
    was not in the heap before, whatever the caller writes into it leaves
    the structure as it was, and a later such call returns yet another
    object. *)
Theorem created_results_are_not_shared
    (h : heap) (self : loc) (v : contents) (c : call) :
  contents_of h self = Some v →
  creates_object (length (c_residues v)) c →
  ∃ l h',
    perform self c h = Some (l, h') ∧
    h !! l = None ∧
    (∀ o, ∃ h2, store l o h' = Some (tt, h2) ∧ contents_of h2 self = Some v) ∧
    (∀ c2 l2 h2,
       creates_object (length (c_residues v)) c2 →
       perform self c2 h' = Some (l2, h2) → l2 ≠ l).
Proof.
  intros Hv Hc.
  destruct (perform_creates h self v c Hv Hc) as (l & h' & o & Hrun & Hl & ->).
  exists l, (<[l := o]> h). split; [done|]. split; [done|]. split.
  - intros o'. exists (<[l := o']> (<[l := o]> h)). split.
    + apply (store_live _ _ o). apply lookup_insert_eq.
    + eapply contents_of_weaken; [|exact Hv].
      rewrite insert_insert_eq. by apply insert_subseteq.
  - intros c2 l2 h2 Hc2 Hrun2.
    assert (contents_of (<[l := o]> h) self = Some v) as Hv'.
    { eapply contents_of_weaken; [|exact Hv]. by apply insert_subseteq. }
    destruct (perform_creates _ self v c2 Hv' Hc2)
      as (l2' & h2' & o2 & Hrun2' & Hl2 & _).
    rewrite Hrun2 in Hrun2'. injection Hrun2' as -> ->.
    intros ->. by rewrite lookup_insert_eq in Hl2.
Qed.

Lemma created_results_are_not_shared_witness :
  ∃ l h',
    perform example_self (CallGetResidueAtoms 1) example_heap = Some (l, h') ∧
    example_heap !! l = None ∧
    (∀ o, ∃ h2, store l o h' = Some (tt, h2) ∧
                contents_of h2 example_self = Some example_contents) ∧
    (∀ c2 l2 h2,
       creates_object (length (c_residues example_contents)) c2 →
       perform example_self c2 h' = Some (l2, h2) → l2 ≠ l).
Proof.
  apply (created_results_are_not_shared example_heap example_self
           example_contents (CallGetResidueAtoms 1)).
  - vm_compute. reflexivity.
  - right. vm_compute. discriminate.
Defined.

(** ** [create_molecular_mesh_data] *)

(** X3.  [create_molecular_mesh_data] puts the atom entries first and the
    bond entries after them, in both arrays.  When the atom group's
    [positions] and [colors] are equally long, the entries of the atom
    group stay at their indices and the entries of the bond group are
    moved by one and the same offset in the vertex array and in the color
    array, so a vertex and its color keep a common index. *)
Theorem mesh_keeps_vertex_and_color_together (d : picogl_data) :
  length (positions (pg_atoms d)) = length (colors (pg_atoms d)) →
  let mesh := create_molecular_mesh_data d in
  let offset := length (positions (pg_atoms d)) in
  (∀ k, (k < offset)%nat →
     vertices mesh !! k = positions (pg_atoms d) !! k ∧
     mesh_colors mesh !! k = colors (pg_atoms d) !! k) ∧
  (∀ k, vertices mesh !! (offset + k)%nat = positions (pg_bonds d) !! k ∧
        mesh_colors mesh !! (offset + k)%nat = colors (pg_bonds d) !! k) ∧
  length (vertices mesh) = (offset + length (positions (pg_bonds d)))%nat ∧
  length (mesh_colors mesh) = (offset + length (colors (pg_bonds d)))%nat.
Proof.
  intros Hlen. cbv zeta. unfold create_molecular_mesh_data. simpl.
  split; [|split; [|split]].
  - intros k Hk. split; apply lookup_app_l; lia.
  - intros k. split.
    + rewrite lookup_app_r by lia. f_equal. lia.
    + rewrite lookup_app_r by lia. f_equal. lia.
  - by rewrite length_app.
  - rewrite length_app. lia.
Qed.

Lemma mesh_keeps_vertex_and_color_together_witness :
  let d := mk_picogl_data
             (mk_buffer_group 1 [float_0_0; float_1_0; float_1_5]
                [float_0_5; float_0_5; float_0_5])
             (mk_buffer_group 0 [] []) in
  let mesh := create_molecular_mesh_data d in
  let offset := length (positions (pg_atoms d)) in
  (∀ k, (k < offset)%nat →
     vertices mesh !! k = positions (pg_atoms d) !! k ∧
     mesh_colors mesh !! k = colors (pg_atoms d) !! k) ∧
  (∀ k, vertices mesh !! (offset + k)%nat = positions (pg_bonds d) !! k ∧
        mesh_colors mesh !! (offset + k)%nat = colors (pg_bonds d) !! k) ∧
  length (vertices mesh) = (offset + length (positions (pg_bonds d)))%nat ∧
  length (mesh_colors mesh) = (offset + length (colors (pg_bonds d)))%nat.
Proof.
  intros d.
  apply (mesh_keeps_vertex_and_color_together d).
  reflexivity.
Defined.

(** ** [save_molviewspec], further *)

Section save_extras.
Variable locale_encode : text → option (list byte).
Variable linesep : text.
Variable writable : string → bool.

Lemma save_molviewspec_Some d p files files' :
  save_molviewspec locale_encode linesep writable d p files = Some files' →
  ∃ bytes,
    locale_encode (translate_newlines linesep (json_dump d)) = Some bytes ∧
    files' = <[p := bytes]> files.
Proof.
  unfold save_molviewspec. destruct (writable p); [|done].
  destruct (locale_encode _) as [bytes|]; [|done].
  intros [= <-]. by exists bytes.
Qed.

Lemma json_dump_inj d1 d2 : json_dump d1 = json_dump d2 → d1 = d2.
Proof.
  intros E. pose proof (json_loads_json_dump d1) as H1.
  rewrite E, json_loads_json_dump in H1. congruence.
Qed.

Lemma byte_of_ascii_inj : Inj (=) (=) byte_of_ascii.
Proof.
  intros a b E. rewrite <- (ascii_of_byte_of_ascii a), E.
  apply ascii_of_byte_of_ascii.
Qed.

Lemma written_text_ascii d :
  linesep = [LF] ∨ linesep = [CR; LF] →
  Forall (λ c, (code c < 128)%N) (translate_newlines linesep (json_dump d)).
Proof.
  intros Hsep. apply translate_newlines_ascii.
  - destruct Hsep as [-> | ->]; by repeat constructor.
  - eapply Forall_impl; [apply (iterencode_output 2 0)|].
    apply is_output_char_ascii.
Qed.

Lemma written_text_inj d1 d2 :
  linesep = [LF] ∨ linesep = [CR; LF] →
  translate_newlines linesep (json_dump d1)
  = translate_newlines linesep (json_dump d2) →
  d1 = d2.
Proof.
  intros Hsep E. apply json_dump_inj.
  rewrite <- (universal_newlines_translate linesep (json_dump d1)),
          <- (universal_newlines_translate linesep (json_dump d2)); try done.
  - by rewrite E.
  - eapply Forall_impl; [apply (iterencode_output 2 0)|].
    apply is_output_char_not_CR.
  - eapply Forall_impl; [apply (iterencode_output 2 0)|].
    apply is_output_char_not_CR.
Qed.
End save_extras.





(** X6.  The file is plain ASCII whatever the document holds: under an
    ASCII-compatible codec every byte written is a line feed, a carriage
    return or a printable ASCII character, also when strings of the
    document contain control characters or characters above U+007F. *)
Theorem save_molviewspec_writes_ascii_only
    (locale_encode : text → option (list byte)) (linesep : text)
    (writable : string → bool) (d : json) (p : string)
    (files files' : gmap string (list byte)) :
  ascii_compatible locale_encode →
  linesep = [LF] ∨ linesep = [CR; LF] →
  save_molviewspec locale_encode linesep writable d p files = Some files' →
  ∃ bytes,
    files' !! p = Some bytes ∧
    Forall (λ b, let n := Byte.to_N b in
                 n = 10%N ∨ n = 13%N ∨ (32 ≤ n ≤ 126)%N) bytes.
Proof.
  intros Hcodec Hsep (b & E & ->)%save_molviewspec_Some.
  exists b. split; [apply lookup_insert_eq|].
  rewrite (Hcodec _ (written_text_ascii linesep d Hsep)) in E.
  injection E as <-. apply Forall_fmap.
  unfold translate_newlines. apply Forall_bind.
  eapply Forall_impl; [apply (iterencode_output 2 0 d)|].
  intros c Hc. unfold compose. cbv beta in Hc |- *.
  unfold is_output_char in Hc. destruct (Ascii.eqb c LF) eqn:E.
  - destruct Hsep as [-> | ->];
      repeat (constructor; [first [by left | by (right; left)]|]);
      constructor.
  - constructor; [|done]. simpl in Hc.
    apply andb_true_iff in Hc as [H1 H2]. apply N.leb_le in H1, H2.
    assert (Byte.to_N (byte_of_ascii c) = code c) as ->; [|lia].
    clear. destruct c as [[] [] [] [] [] [] [] []]; reflexivity.
Qed.

Lemma save_molviewspec_writes_ascii_only_witness :
  ∃ bytes,
    (<["x.json"%string :=
         byte_of_ascii <$> translate_newlines [CR; LF]
                             (json_dump example_document)]> ∅
       : gmap string (list byte)) !! "x.json"%string = Some bytes ∧
    Forall (λ b, let n := Byte.to_N b in
                 n = 10%N ∨ n = 13%N ∨ (32 ≤ n ≤ 126)%N) bytes.
Proof.
  apply (save_molviewspec_writes_ascii_only latin_1_encode [CR; LF]
           (λ _, true) example_document "x.json" ∅).
  - intros s _. reflexivity.
  - right. reflexivity.
  - reflexivity.
Defined.

(** ** The reports of the demo *)

Section tallies.
Context {A : Type}.
Variable key : A → string.

Lemma occurrences_nil k : occurrences key k [] = 0.
Proof. reflexivity. Qed.

Lemma occurrences_cons k x xs :
  occurrences key k (x :: xs)
  = (if decide (key x = k) then 1 else 0) + occurrences key k xs.
Proof.
  unfold occurrences. rewrite filter_cons.
  destruct (decide (key x = k)); simpl length; lia.
Qed.

Lemma occurrences_nonneg k xs : 0 ≤ occurrences key k xs.
Proof. unfold occurrences. lia. Qed.

Lemma tally_from_lookup (counts : gmap string Z) xs k :
  foldl (λ counts x, <[key x := default 0 (counts !! key x) + 1]> counts)
        counts xs !! k
  = if decide (occurrences key k xs = 0) then counts !! k
    else Some (default 0 (counts !! k) + occurrences key k xs).
Proof.
  revert counts. induction xs as [|x xs IH]; intros counts.
  - by rewrite occurrences_nil.
  - cbn [foldl]. rewrite IH, occurrences_cons.
    pose proof (occurrences_nonneg k xs).
    destruct (decide (key x = k)) as [->|Hne].
    + rewrite lookup_insert_eq. cbn [default].
      repeat case_decide; try lia; unfold id; f_equal; lia.
    + rewrite lookup_insert_ne by done.
      repeat case_decide; try lia; done.
Qed.

Lemma tally_lookup xs k :
  tally key xs !! k
  = if decide (occurrences key k xs = 0) then None
    else Some (occurrences key k xs).
Proof.
  unfold tally. rewrite tally_from_lookup, lookup_empty.
  case_decide; [done|]. by cbn [default].
Qed.

Lemma total_count_perm (l l' : list (string * Z)) :
  l ≡ₚ l' → total_count l = total_count l'.
Proof.
  induction 1; cbn [total_count foldr] in *; unfold total_count in *; lia.
Qed.

Lemma total_count_step (counts : gmap string Z) k :
  total_count (map_to_list (<[k := default 0 (counts !! k) + 1]> counts))
  = total_count (map_to_list counts) + 1.
Proof.
  destruct (counts !! k) as [n|] eqn:Hk; cbn [default].
  - rewrite <- (insert_delete_eq counts k).
    rewrite (total_count_perm _ _ (map_to_list_insert _ _ _ (lookup_delete_eq counts k))).
    rewrite <- (total_count_perm _ _ (map_to_list_delete _ _ _ Hk)).
    unfold total_count, id. cbn [foldr snd]. lia.
  - rewrite (total_count_perm _ _ (map_to_list_insert _ _ _ Hk)).
    unfold total_count. cbn [foldr snd]. lia.
Qed.

Lemma total_count_tally xs :
  total_count (map_to_list (tally key xs)) = Z.of_nat (length xs).
Proof.
  unfold tally.
  assert (∀ counts : gmap string Z,
    total_count (map_to_list
      (foldl (λ counts x, <[key x := default 0 (counts !! key x) + 1]> counts)
             counts xs))
    = total_count (map_to_list counts) + Z.of_nat (length xs)) as H.
  { induction xs as [|x xs IH]; intros counts; cbn [foldl length].
    - lia.
    - rewrite IH, total_count_step. lia. }
  rewrite H, map_to_list_empty. unfold total_count. cbn [foldr]. lia.
Qed.
End tallies.

Section sorted_counts.

Lemma item_le_total a b : item_le a b = false → item_le b a = true.
Proof.
  unfold item_le. rewrite (String.compare_antisym b.1 a.1).
  destruct (String.compare a.1 b.1); cbn [CompOpp]; [|done..].
  intros H. apply Z.leb_gt in H. apply Z.leb_le. lia.
Qed.

Lemma item_order_total : Total item_order.
Proof.
  intros a b. unfold item_order.
  destruct (item_le a b) eqn:E; [by left|right]. by apply item_le_total.
Qed.

Lemma item_le_distinct a b :
  item_le a b = true → a.1 ≠ b.1 → String.ltb a.1 b.1 = true.
Proof.
  unfold item_le, String.ltb. intros H Hne.
  destruct (String.compare a.1 b.1) eqn:E; [|done..].
  by apply String.compare_eq_iff in E.
Qed.

Lemma ascending_of_sorted (items : list (string * Z)) :
  Sorted item_order items → NoDup items.*1 → ascending_names items.
Proof.
  unfold ascending_names.
  induction 1 as [|a l Hl IH Hd]; intros Hnd; [constructor|].
  apply NoDup_cons in Hnd as [Ha Hnd].
  constructor; [by apply IH|].
  destruct Hd as [|b l Hab]; constructor.
  apply item_le_distinct; [done|].
  intros Heq. apply Ha. rewrite Heq. cbn. left.
Qed.

Lemma sorted_items_elem (d : gmap string Z) k n :
  (k, n) ∈ sorted_items d ↔ d !! k = Some n.
Proof.
  unfold sorted_items. rewrite merge_sort_Permutation.
  apply elem_of_map_to_list.
Qed.

Lemma sorted_items_ascending (d : gmap string Z) :
  ascending_names (sorted_items d).
Proof.
  apply ascending_of_sorted.
  - apply Sorted_merge_sort, item_order_total.
  - unfold sorted_items. rewrite merge_sort_Permutation.
    apply NoDup_fst_map_to_list.
Qed.

Lemma sorted_items_total (d : gmap string Z) :
  total_count (sorted_items d) = total_count (map_to_list d).
Proof. apply total_count_perm, merge_sort_Permutation. Qed.

Lemma sorted_tally_elem {A} (key : A → string) xs k n :
  (k, n) ∈ sorted_items (tally key xs)
  ↔ 0 < n ∧ n = occurrences key k xs.
Proof.
  rewrite sorted_items_elem, tally_lookup.
  pose proof (occurrences_nonneg key k xs).
  case_decide; split; try done.
  - intros [? ?]. lia.
  - intros [= <-]. lia.
  - intros [_ ->]. done.
Qed.

Lemma tally_fmap {A B} (f : A → B) (key : B → string) xs :
  tally key (f <$> xs) = tally (key ∘ f) xs.
Proof.
  unfold tally. generalize (∅ : gmap string Z).
  induction xs as [|x xs IH]; intros m; [done|]. cbn. apply IH.
Qed.

Lemma residue_names h residues rcs :
  mapM (residue_contents_of h) residues = Some rcs →
  Residue.name <$> residues = rc_name <$> rcs.
Proof.
  rewrite mapM_Some. induction 1 as [|r rc rs rcs' Hr _ IH]; [done|].
  cbn. f_equal; [|done].
  unfold residue_contents_of in Hr.
  destruct (heap_atoms h (Residue.atoms r)); [|done].
  cbn in Hr. by injection Hr as <-.
Qed.

Lemma analyze_structure_output h self v :
  contents_of h self = Some v →
  analyze_structure h (PDBLoader.mk self)
  = (summary_lines v
       ++ [literal "  Element Composition:"]
       ++ (count_line <$> sorted_items (tally Atom.element (c_atoms v)))
       ++ [literal "  Residue Types:"]
       ++ (count_line <$> sorted_items (tally rc_name (c_residues v))),
     Returned tt).
Proof.
  intros Hv. unfold contents_of in Hv.
  destruct (heap_structure h self) as [this|] eqn:H1; [|done].
  cbn [mbind option_bind] in Hv.
  destruct (heap_atoms h _) as [atoms|] eqn:H2; [|done].
  cbn [mbind option_bind] in Hv.
  destruct (heap_bonds h _) as [bonds|] eqn:H3; [|done].
  cbn [mbind option_bind] in Hv.
  destruct (heap_residues h _) as [residues|] eqn:H4; [|done].
  cbn [mbind option_bind] in Hv.
  destruct (mapM _ residues) as [rcs|] eqn:Hrcs; [|done].
  cbn [mbind option_bind] in Hv.
  destruct (heap_strs h _) as [chains|] eqn:H5; [|done].
  cbn [mbind option_bind] in Hv. injection Hv as <-.
  assert (tally Residue.name residues = tally rc_name rcs) as Htally.
  { rewrite <- (tally_fmap Residue.name id), <- (tally_fmap rc_name id).
    by rewrite (residue_names _ _ _ Hrcs). }
  assert (length residues = length rcs) as Hlen.
  { apply mapM_Some in Hrcs. by eapply Forall2_length. }
  unfold analyze_structure, summary_lines, log_each, log_message, expect,
    log_ret, log_bind.
  cbn [PDBLoader.structure c_title c_atoms c_bonds c_residues c_chains].
  rewrite H1, H2, H3, H4, H5, Htally, Hlen. reflexivity.
Qed.
End sorted_counts.

(** X7.  For a structure whose parts are in the heap, [analyze_structure]
    returns after logging the six summary messages, the heading of the
    element composition, one line per element, the heading of the residue
    types and one line per residue name.  A name is listed with a count
    exactly when it occurs among the atoms (among the residues), and the
    count is the number of its occurrences; so the counts of the elements
    add up to the number of atoms and those of the residue names to the
    number of residues. *)
Theorem analyze_structure_counts_every_name h self v :
  contents_of h self = Some v →
  ∃ elements residues,
    analyze_structure h (PDBLoader.mk self)
    = (summary_lines v
         ++ [literal "  Element Composition:"] ++ (count_line <$> elements)
         ++ [literal "  Residue Types:"] ++ (count_line <$> residues),
       Returned tt)
    ∧ (∀ e n, (e, n) ∈ elements
              ↔ 0 < n ∧ n = occurrences Atom.element e (c_atoms v))
    ∧ (∀ r n, (r, n) ∈ residues
              ↔ 0 < n ∧ n = occurrences rc_name r (c_residues v))
    ∧ total_count elements = Z.of_nat (length (c_atoms v))
    ∧ total_count residues = Z.of_nat (length (c_residues v)).
Proof.
  intros Hv. eexists _, _. split; [by apply analyze_structure_output|].
  split; [intros; apply sorted_tally_elem|].
  split; [intros; apply sorted_tally_elem|].
  split; rewrite sorted_items_total; apply total_count_tally.
Qed.

(** X8.  The element lines and the residue lines of [analyze_structure]
    come in strictly ascending order of the names, compared code point by
    code point, whatever the order of the atoms and residues: no name
    has two lines. *)
Theorem analyze_structure_lists_names_in_order h self v :
  contents_of h self = Some v →
  ∃ elements residues,
    analyze_structure h (PDBLoader.mk self)
    = (summary_lines v
         ++ [literal "  Element Composition:"] ++ (count_line <$> elements)
         ++ [literal "  Residue Types:"] ++ (count_line <$> residues),
       Returned tt)
    ∧ ascending_names elements ∧ ascending_names residues.
Proof.
  intros Hv. eexists _, _. split; [by apply analyze_structure_output|].
  split; apply sorted_items_ascending.
Qed.

Lemma analyze_structure_counts_every_name_witness :
  ∃ elements residues,
    analyze_structure example_heap (PDBLoader.mk example_self)
    = (summary_lines example_contents
         ++ [literal "  Element Composition:"] ++ (count_line <$> elements)
         ++ [literal "  Residue Types:"] ++ (count_line <$> residues),
       Returned tt)
    ∧ (∀ e n, (e, n) ∈ elements
              ↔ 0 < n ∧ n = occurrences Atom.element e (c_atoms example_contents))
    ∧ (∀ r n, (r, n) ∈ residues
              ↔ 0 < n ∧ n = occurrences rc_name r (c_residues example_contents))
    ∧ total_count elements = Z.of_nat (length (c_atoms example_contents))
    ∧ total_count residues = Z.of_nat (length (c_residues example_contents)).
Proof.
  apply (analyze_structure_counts_every_name example_heap example_self
           example_contents).
  vm_compute. reflexivity.
Defined.

Lemma analyze_structure_lists_names_in_order_witness :
  ∃ elements residues,
    analyze_structure example_heap (PDBLoader.mk example_self)
    = (summary_lines example_contents
         ++ [literal "  Element Composition:"] ++ (count_line <$> elements)
         ++ [literal "  Residue Types:"] ++ (count_line <$> residues),
       Returned tt)
    ∧ ascending_names elements ∧ ascending_names residues.
Proof.
  apply (analyze_structure_lists_names_in_order example_heap example_self
           example_contents).
  vm_compute. reflexivity.
Defined.

Section information.
Variable repr_container : json → message.

Lemma show_components_dicts (k : nat) (components : list json) :
  Forall (λ c, is_dict c = true) components →
  show_components repr_container (Z.of_nat k) components
  = (imap (λ j c, dict_component_line repr_container (k + j) (members_of c))
          components,
     Returned tt).
Proof.
  intros H. revert k. induction H as [|c cs Hc _ IH]; intros k; [done|].
  destruct c as [| | | | |members]; try done.
  cbn [show_components get]. unfold log_bind at 1 2 3, log_ret, log_message.
  replace (Z.of_nat k + 1) with (Z.of_nat (S k)) by lia.
  rewrite IH, imap_cons. cbn [app members_of].
  unfold dict_component_line. rewrite Nat.add_0_r. do 2 f_equal.
  apply imap_ext. intros j c _. cbn. by rewrite Nat.add_succ_r.
Qed.

Lemma show_components_stops (k : nat) (before after : list json) (bad : json) :
  Forall (λ c, is_dict c = true) before →
  is_dict bad = false →
  show_components repr_container (Z.of_nat k) (before ++ bad :: after)
  = (imap (λ j c, dict_component_line repr_container (k + j) (members_of c))
          before,
     Raised AttributeError).
Proof.
  intros H Hbad. revert k. induction H as [|c cs Hc _ IH]; intros k.
  - destruct bad; done.
  - destruct c as [| | | | |members]; try done.
    cbn [show_components get app]. unfold log_bind at 1 2 3, log_ret, log_message.
    replace (Z.of_nat k + 1) with (Z.of_nat (S k)) by lia.
    rewrite IH, imap_cons. cbn [app members_of].
    unfold dict_component_line. rewrite Nat.add_0_r. do 2 f_equal.
    apply imap_ext. intros j c _. cbn. by rewrite Nat.add_succ_r.
Qed.
End information.

(** X9.  On a dict whose [components], when present, is a list of dicts,
    [show_molviewspec_info] returns after logging five messages and then
    one message per component, numbered from 1 in the order of the list;
    the count on the fifth message is the number of component lines, and
    a missing key is shown as [Unknown] (as [None] for the description,
    as no component for [components]). *)
Theorem show_molviewspec_info_numbers_components
    repr_container members components :
  default (JList []) (dict_get members "components") = JList components →
  Forall (λ c, is_dict c = true) components →
  show_molviewspec_info repr_container (JDict members)
  = (information_lines repr_container members (Z.of_nat (length components))
       ++ imap (λ i c, dict_component_line repr_container i (members_of c))
               components,
     Returned tt).
Proof.
  intros Hc Hd. unfold show_molviewspec_info, get. rewrite Hc.
  unfold log_bind, log_message. cbn [py_len py_iter log_ret].
  pose proof (show_components_dicts repr_container 0 components Hd) as H.
  change (Z.of_nat 0) with 0 in H. rewrite H. reflexivity.
Qed.

(** X10.  [show_molviewspec_info] raises [AttributeError] at the first
    component that is not a dict: the five messages and the lines of the
    components before it stay logged, the count already announced
    includes the components never shown. *)
Theorem show_molviewspec_info_stops_at_non_dict
    repr_container members before bad after :
  default (JList []) (dict_get members "components")
    = JList (before ++ bad :: after) →
  Forall (λ c, is_dict c = true) before →
  is_dict bad = false →
  show_molviewspec_info repr_container (JDict members)
  = (information_lines repr_container members
       (Z.of_nat (length (before ++ bad :: after)))
       ++ imap (λ i c, dict_component_line repr_container i (members_of c))
               before,
     Raised AttributeError).
Proof.
  intros Hc Hd Hbad. unfold show_molviewspec_info, get. rewrite Hc.
  unfold log_bind, log_message. cbn [py_len py_iter log_ret].
  pose proof (show_components_stops repr_container 0 before after bad
                Hd Hbad) as H.
  change (Z.of_nat 0) with 0 in H. rewrite H. reflexivity.
Qed.

(** X11.  When [components] is present and is [None], a boolean or an
    integer, [show_molviewspec_info] raises [TypeError] from [len] after
    the first four messages: no count and no component is logged. *)
Theorem show_molviewspec_info_needs_sized_components
    repr_container members components :
  dict_get members "components" = Some components →
  (components = JNull ∨ (∃ b, components = JBool b)
   ∨ ∃ n, components = JInt n) →
  show_molviewspec_info repr_container (JDict members)
  = (take 4 (information_lines repr_container members 0), Raised TypeError).
Proof.
  intros Hc Hk. unfold show_molviewspec_info, get. rewrite Hc.
  destruct Hk as [->|[[b ->]| [n ->]]]; reflexivity.
Qed.

Lemma show_molviewspec_info_numbers_components_witness :
  show_molviewspec_info example_repr_container (JDict example_members)
  = (information_lines example_repr_container example_members
       (Z.of_nat (length example_components))
       ++ imap (λ i c, dict_component_line example_repr_container i
                         (members_of c))
               example_components,
     Returned tt).
Proof.
  apply (show_molviewspec_info_numbers_components example_repr_container
           example_members example_components).
  - reflexivity.
  - repeat constructor.
Defined.

Lemma show_molviewspec_info_stops_at_non_dict_witness :
  show_molviewspec_info example_repr_container (JDict example_members_broken)
  = (information_lines example_repr_container example_members_broken
       (Z.of_nat (length ([JDict [("type"%string, JStr "structure")]]
                          ++ JStr "oops" :: example_components)))
       ++ imap (λ i c, dict_component_line example_repr_container i
                         (members_of c))
               [JDict [("type"%string, JStr "structure")]],
     Raised AttributeError).
Proof.
  apply (show_molviewspec_info_stops_at_non_dict example_repr_container
           example_members_broken
           [JDict [("type"%string, JStr "structure")]] (JStr "oops")
           example_components).
  - reflexivity.
  - repeat constructor.
  - reflexivity.
Defined.

Lemma show_molviewspec_info_needs_sized_components_witness :
  show_molviewspec_info example_repr_container (JDict example_members_unsized)
  = (take 4 (information_lines example_repr_container
               example_members_unsized 0),
     Raised TypeError).
Proof.
  apply (show_molviewspec_info_needs_sized_components example_repr_container
           example_members_unsized (JInt 3)).
  - reflexivity.
  - right. right. by exists 3.
Defined.
